(** * createTextMask: a shallow embedding of [src/createTextMask.js]

    The module exports one function which validates its options, captures
    them in a closure and returns the operations of the masking engine
    ([format], [normalize] and four event handlers).  The helpers it
    imports from [./utils] and the default table of
    [./defaultMaskDefinitions] are a separate module: the engine is stated
    over an interface ([Imports]) for them, and a reference instance written
    from the prose specification is used to run the engine on concrete
    inputs. *)

From Stdlib Require Import ZArith List String Ascii Bool Lia Sorted.
Import ListNotations.

Local Open Scope string_scope.
Local Open Scope Z_scope.

(** ** The fragment of JavaScript the module relies on *)

Module JS.

(** [!v] for a value that is a string or [undefined] ([None]). *)
Definition not (v : option string) : bool :=
  match v with
  | None => true
  | Some s => (s =? "")%string
  end.

(** [s.length]. *)
Definition length (s : string) : Z := Z.of_nat (String.length s).

(** [s.charAt(i)]: the one-character string at [i], or the empty string
    when [i] is out of range. *)
Definition charAt (s : string) (i : Z) : string :=
  if i <? 0 then ""
  else match String.get (Z.to_nat i) s with
       | Some c => String c ""
       | None => ""
       end.

(** [a[i]] where the index is a number, or [undefined]/[NaN] ([None]);
    reading outside of the array yields [undefined]. *)
Definition index {A : Type} (a : list A) (i : option Z) : option A :=
  match i with
  | None => None
  | Some i => if i <? 0 then None else nth_error a (Z.to_nat i)
  end.

(** [a.indexOf(x)] on an array of numbers. *)
Fixpoint indexOfFrom (a : list Z) (x : Z) (from : Z) : Z :=
  match a with
  | [] => -1
  | y :: a' => if y =? x then from else indexOfFrom a' x (from + 1)
  end.

Definition indexOf (a : list Z) (x : Z) : Z := indexOfFrom a x 0.

(** [e > position] where [e] may be [undefined]: the comparison with
    [undefined] is [false]. *)
Definition gt (e : option Z) (position : Z) : bool :=
  match e with
  | Some e => e >? position
  | None => false
  end.

(** [i - 1] where [i] may be [undefined] (the result is then [NaN]). *)
Definition pred (i : option Z) : option Z := option_map (fun i => i - 1) i.

End JS.

(** [throw new Error(msg)] against a normal return. *)
Inductive result (A : Type) : Type :=
| Ok (a : A)
| Throw (message : string).
Arguments Ok {A} a.
Arguments Throw {A} message.

(** ** The imports: the helpers of [./utils] and the default table *)

Class Imports (MaskDefinitions : Type) : Type := {
  applyMask :
    string -> string -> string -> bool -> bool -> MaskDefinitions -> string;
  applyTransform :
    string -> option string -> string -> MaskDefinitions -> string;
  firstUnfilledPosition :
    string -> string -> string -> MaskDefinitions -> Z;
  inputReformat :
    string -> string -> string -> bool -> bool -> MaskDefinitions -> string;
  isPatternComplete : string -> string -> MaskDefinitions -> bool;
  maskStrip : option string -> string -> string -> MaskDefinitions -> string;
  charMatchTest : string -> MaskDefinitions -> option ascii;
  validCaretPositions : string -> MaskDefinitions -> list Z;
  defaultMaskDefinitions : MaskDefinitions;
}.

(** ** What the engine does to its environment *)

(** Calls of the two optional callbacks made by [normalize]. *)
Inductive CallbackEffect (Callback : Type) : Type :=
| Call (callback : Callback) (argument : string)
| SetTimeout (callback : Callback) (argument : string) (delay : Z).
Arguments Call {Callback} callback argument.
Arguments SetTimeout {Callback} callback argument delay.

(** The host input as an event handler reads it. *)
Module Target.
Record t : Type := {
  value : string;
  selectionStart : Z;
  selectionEnd : Z;
}.
End Target.

(** An event as dispatched: [target] is the host input as it is when the
    handler is invoked, [persist] tells whether the event has a [persist]
    method. *)
Module Event.
Record t : Type := {
  target : option Target.t;
  persist : bool;
  type : string;
  key : string;
}.
End Event.

(** What a handler may do to the event and to the host input.
    [AssignValue] is the write of [target.value]. *)
Inductive HostEffect : Type :=
| Persist
| PreventDefault
| SetSelectionRange (selectionStart selectionEnd : option Z)
| AssignValue (value : string).

Inductive Direction : Type := left | right.

(** ** Options and the returned object *)

Module Options.
Record t (MaskDefinitions Callback : Type) : Type := {
  pattern : option string;
  placeholder : option string;
  maskDefinitions : option MaskDefinitions;
  guide : option bool;
  stripMask : option bool;
  allowEmpty : option bool;
  onChange : option Callback;
  onCompletePattern : option Callback;
}.
Arguments pattern {_ _} _.
Arguments placeholder {_ _} _.
Arguments maskDefinitions {_ _} _.
Arguments guide {_ _} _.
Arguments stripMask {_ _} _.
Arguments allowEmpty {_ _} _.
Arguments onChange {_ _} _.
Arguments onCompletePattern {_ _} _.
End Options.

Module Engine.
Record t (Callback : Type) : Type := {
  format : option string -> string;
  normalize : string -> option string -> string * list (CallbackEffect Callback);
  onKeyDown : Event.t -> Target.t -> list HostEffect;
  onChange : Event.t -> Target.t -> list HostEffect;
  onFocus : Event.t -> Target.t -> list HostEffect;
  onClick : Event.t -> Target.t -> list HostEffect;
  autoComplete : string;
}.
Arguments format {_} _.
Arguments normalize {_} _.
Arguments onKeyDown {_} _.
Arguments onChange {_} _.
Arguments onFocus {_} _.
Arguments onClick {_} _.
Arguments autoComplete {_} _.
End Engine.

(** A destructured option with its default ([{ guide = true } = options]). *)
Definition withDefault {A : Type} (default : A) (v : option A) : A :=
  match v with
  | Some a => a
  | None => default
  end.

Section CreateTextMask.

Context {MaskDefinitions Callback : Type}.
Context {imports : Imports MaskDefinitions}.

(** *** The functions of the closure *)

Section Closure.

Variable pattern : string.
Variable placeholder : string.
Variable maskDefinitions : MaskDefinitions.
Variables guide stripMask allowEmpty : bool.
Variables onChange onCompletePattern : option Callback.
Variable validPositions : list Z.
Variable strippedPattern : string.

Definition format (storeValue : option string) (calledFromNormalize : bool)
  : string :=
  if JS.not storeValue then
    applyMask "" pattern placeholder guide allowEmpty maskDefinitions
  else if negb stripMask && negb calledFromNormalize then
    withDefault "" storeValue
  else
    applyMask (withDefault "" storeValue) pattern placeholder guide
      allowEmpty maskDefinitions.

(** [newValue !== previousValue && (newValue !== '' || previousValue !== undefined)] *)
Definition hasValueChanged (newValue : string) (previousValue : option string)
  : bool :=
  negb (match previousValue with
        | Some p => (newValue =? p)%string
        | None => false
        end)
  && (negb (newValue =? "")%string
      || match previousValue with Some _ => true | None => false end).

Definition normalize (updatedValue : string) (previousValue : option string)
  : string * list (CallbackEffect Callback) :=
  let inputHandledValue :=
    inputReformat updatedValue pattern placeholder guide allowEmpty
      maskDefinitions in
  let strippedValue :=
    maskStrip (Some inputHandledValue) pattern placeholder maskDefinitions in
  let transformedValue :=
    applyTransform strippedValue
      (if stripMask then previousValue
       else Some (maskStrip previousValue pattern placeholder maskDefinitions))
      strippedPattern maskDefinitions in
  let formattedValue := format (Some transformedValue) true in
  let newValue := if stripMask then transformedValue else formattedValue in
  let changed := hasValueChanged newValue previousValue in
  let called :=
    match onChange with
    | Some callback => if changed then [Call callback newValue] else []
    | None => []
    end in
  let deferred :=
    match onCompletePattern with
    | Some callback =>
        if isPatternComplete formattedValue pattern maskDefinitions
           && changed
        then [SetTimeout callback newValue 10]
        else []
    | None => []
    end in
  (newValue, (called ++ deferred)%list).

Definition goToFirstUnfilledPosition (target : Target.t) : list HostEffect :=
  let caretPos :=
    firstUnfilledPosition (Target.value target) pattern placeholder
      maskDefinitions in
  [SetSelectionRange (Some caretPos) (Some caretPos)].

(** The loop [for (index = 0; index <= validPositions.length; index += 1)]:
    [remaining] counts the iterations left; the last one reads past the
    end of the array. *)
Fixpoint nearestIndexToTheRightFrom (position : Z) (index : Z)
  (remaining : nat) : option Z :=
  match remaining with
  | O => None
  | S remaining' =>
      let element := JS.index validPositions (Some index) in
      if JS.gt element position then Some index
      else nearestIndexToTheRightFrom position (index + 1) remaining'
  end.

(** [caretPos] as [goToNearestValidPosition] computes it, fallback
    included. *)
Definition nearestValidPosition (position : Z) (direction : Direction)
  : option Z :=
  let nearestIndexToTheRight :=
    nearestIndexToTheRightFrom position 0
      (S (List.length validPositions)) in
  let caretPos :=
    match direction with
    | left => JS.index validPositions (JS.pred nearestIndexToTheRight)
    | right => JS.index validPositions nearestIndexToTheRight
    end in
  match caretPos with
  | Some _ => caretPos
  | None =>
      let fallbackIndex :=
        match direction with
        | left => 0
        | right => Z.of_nat (List.length validPositions) - 1
        end in
      JS.index validPositions (Some fallbackIndex)
  end.

Definition goToNearestValidPosition (target : Target.t) (position : Z)
  (direction : Direction) : list HostEffect :=
  let caretPos := nearestValidPosition position direction in
  [SetSelectionRange caretPos caretPos].

(** The body of the deferred callback of [manageCaretPosition]:
    [previousSelection] and [previousValue] were read when the handler
    was invoked, [target] is the host input as the callback finds it. *)
Definition manageCaretPositionDeferred (previousSelection : Z)
  (previousValue : string) (type key : string) (target : Target.t)
  : list HostEffect :=
  let value := Target.value target in
  let selectionStart := Target.selectionStart target in
  let selectionEnd := Target.selectionEnd target in
  if (type =? "change")%string then
    if (JS.length value =? JS.length previousValue + 1)
       && (JS.charAt value previousSelection
           =? JS.charAt pattern previousSelection)%string
    then
      goToNearestValidPosition target previousSelection left
    else goToFirstUnfilledPosition target
  else if (type =? "focus")%string then
    goToFirstUnfilledPosition target
  else if (type =? "click")%string then
    if selectionStart =? selectionEnd then
      if JS.indexOf validPositions selectionStart >=? 0 then
        [PreventDefault]
      else goToFirstUnfilledPosition target
    else []
  else if (type =? "keydown")%string then
    if (key =? "ArrowLeft")%string then
      goToNearestValidPosition target selectionStart left
    else if (key =? "ArrowRight")%string then
      goToNearestValidPosition target previousSelection right
    else []
  else [].

(** [event] is the event as dispatched and [updated] the host input as
    it is when the deferred callback runs. *)
Definition manageCaretPosition (event : Event.t) (updated : Target.t)
  : list HostEffect :=
  match Event.target event with
  | Some target =>
      ((if Event.persist event then [Persist] else [])
       ++ manageCaretPositionDeferred (Target.selectionStart target)
            (Target.value target) (Event.type event) (Event.key event)
            updated)%list
  | None => []
  end.

End Closure.

(** *** Construction *)

Definition patternRequired : string :=
  "The key `pattern` is required for createTextMask."
  ++ " You probably forgot to add it to your options.".

Definition placeholderLength : string :=
  "The key `placeholder` should have a single character as a value.".

Definition patternNotValid (pattern : string) : string :=
  "The pattern `" ++ pattern ++ "` passed for createTextMask is not valid.".

Definition placeholderMatches (placeholder : string) (placeholderMatch : ascii)
  : string :=
  "The placeholder `" ++ placeholder ++ "` matches the mask definition"
  ++ "`" ++ String placeholderMatch "" ++ "`. The mask created using `createTextMask`"
  ++ "is therefore invalid.".

(** The destructuring of [options], with the defaults of the source. *)
Definition get_pattern (options : Options.t MaskDefinitions Callback) : string :=
  withDefault "" (Options.pattern options).
Definition get_placeholder (options : Options.t MaskDefinitions Callback)
  : string :=
  withDefault "_" (Options.placeholder options).
Definition get_maskDefinitions (options : Options.t MaskDefinitions Callback)
  : MaskDefinitions :=
  withDefault defaultMaskDefinitions (Options.maskDefinitions options).
Definition get_guide (options : Options.t MaskDefinitions Callback) : bool :=
  withDefault true (Options.guide options).
Definition get_stripMask (options : Options.t MaskDefinitions Callback) : bool :=
  withDefault true (Options.stripMask options).
Definition get_allowEmpty (options : Options.t MaskDefinitions Callback) : bool :=
  withDefault false (Options.allowEmpty options).

(** [validPositions] and [strippedPattern], computed once per engine. *)
Definition get_validPositions (options : Options.t MaskDefinitions Callback)
  : list Z :=
  validCaretPositions (get_pattern options) (get_maskDefinitions options).
Definition get_strippedPattern (options : Options.t MaskDefinitions Callback)
  : string :=
  maskStrip (Some (get_pattern options)) (get_pattern options)
    (get_placeholder options) (get_maskDefinitions options).

(** The object returned by a successful construction. *)
Definition operations (options : Options.t MaskDefinitions Callback)
  : Engine.t Callback :=
  let manage :=
    manageCaretPosition (get_pattern options) (get_placeholder options)
      (get_maskDefinitions options) (get_validPositions options) in
  {| Engine.format := fun storeValue =>
       format (get_pattern options) (get_placeholder options)
         (get_maskDefinitions options) (get_guide options)
         (get_stripMask options) (get_allowEmpty options) storeValue false;
     Engine.normalize := fun updatedValue previousValue =>
       normalize (get_pattern options) (get_placeholder options)
         (get_maskDefinitions options) (get_guide options)
         (get_stripMask options) (get_allowEmpty options)
         (Options.onChange options) (Options.onCompletePattern options)
         (get_strippedPattern options) updatedValue previousValue;
     Engine.onKeyDown := manage;
     Engine.onChange := manage;
     Engine.onFocus := manage;
     Engine.onClick := manage;
     Engine.autoComplete := "off" |}.

Definition createTextMask (options : Options.t MaskDefinitions Callback)
  : result (Engine.t Callback) :=
  if JS.not (Options.pattern options) then Throw patternRequired
  else if JS.not (Some (get_placeholder options))
          || negb (JS.length (get_placeholder options) =? 1) then
    Throw placeholderLength
  else if Z.of_nat (List.length (get_validPositions options)) =? 0 then
    Throw (patternNotValid (get_pattern options))
  else
    match charMatchTest (get_placeholder options) (get_maskDefinitions options) with
    | Some placeholderMatch =>
        Throw (placeholderMatches (get_placeholder options) placeholderMatch)
    | None => Ok (operations options)
    end.

End CreateTextMask.

(** ** A reference instance of the helpers

    [./utils] and [./defaultMaskDefinitions] are not among the sources.
    The definitions of this module follow the prose specification, section
    by section; they serve to run the engine on concrete inputs. *)

Module SpecUtils.

(** Modelled from the spec: the rules held by [./defaultMaskDefinitions] and
    by user tables, whose module is missing from the sources.  "A rule is
    [{ match: predicate(char) -> bool, transform?: char -> char }]". *)
Record Rule : Type := {
  matches : ascii -> bool;
  transform : option (ascii -> ascii);
}.

(** Modelled from the spec: the mask definition table, missing from the
    sources: a "mapping from slot-marker character -> rule", kept in the
    order of its keys. *)
Definition MaskDefinitions : Type := list (ascii * Rule).

(** Modelled from the spec: the lookup [maskDefinitions[char]] in the missing
    table; a pattern character is a slot marker when it is "a key present in
    the Mask Definition Table". *)
Fixpoint lookup (char : ascii) (table : MaskDefinitions) : option Rule :=
  match table with
  | [] => None
  | (key, rule) :: table' =>
      if Ascii.eqb key char then Some rule else lookup char table'
  end.

(** Modelled from the spec: the classification of a pattern character, which
    the missing helpers make with the table: "either a literal ... or a slot
    marker (a key present in the Mask Definition Table)". *)
Definition isSlot (char : ascii) (table : MaskDefinitions) : bool :=
  match lookup char table with
  | Some _ => true
  | None => false
  end.

(** Modelled from the spec: the digit class of the missing default table
    ("a symbol representing digit"), the characters [0] to [9]. *)
Definition isDigit (c : ascii) : bool :=
  (48 <=? nat_of_ascii c)%nat && (nat_of_ascii c <=? 57)%nat.

(** Modelled from the spec: the letter class of the missing default table,
    the characters [A] to [Z] and [a] to [z]. *)
Definition isLetter (c : ascii) : bool :=
  ((65 <=? nat_of_ascii c)%nat && (nat_of_ascii c <=? 90)%nat)
  || ((97 <=? nat_of_ascii c)%nat && (nat_of_ascii c <=? 122)%nat).

(** Modelled from the spec: the missing [./defaultMaskDefinitions], "a
    built-in table (e.g. digit, letter, alphanumeric classes)"; scenario 1
    fixes the digit slot [9], the letter slot is written [A] here. *)
Definition defaultMaskDefinitions : MaskDefinitions :=
  [ ("A"%char, {| matches := isLetter; transform := None |});
    ("9"%char, {| matches := isDigit; transform := None |}) ].

(** Modelled from the spec: the scan of [validCaretPositions], missing from
    the sources, from offset [position] on (section 4.1): "include position
    0 if the first character is a slot; include the position immediately
    after each literal run that precedes a slot; include each slot position
    itself", in ascending order and without duplicates, which are the
    positions of the slots. *)
Fixpoint validCaretPositionsFrom (pattern : string) (table : MaskDefinitions)
  (position : Z) : list Z :=
  match pattern with
  | EmptyString => []
  | String p pattern' =>
      if isSlot p table
      then position :: validCaretPositionsFrom pattern' table (position + 1)
      else validCaretPositionsFrom pattern' table (position + 1)
  end.

(** Modelled from the spec: [validCaretPositions] of the missing [./utils]
    (section 4.1), "the ordered list of valid caret-stop positions". *)
Definition validCaretPositions (pattern : string) (table : MaskDefinitions)
  : list Z :=
  validCaretPositionsFrom pattern table 0.

(** Modelled from the spec: the search of [charMatchTest], missing from the
    sources, for one character (section 4.1): "the first table key whose
    predicate matches [char], else none". *)
Fixpoint firstMatchingKey (c : ascii) (table : MaskDefinitions) : option ascii :=
  match table with
  | [] => None
  | (key, rule) :: table' =>
      if matches rule c then Some key else firstMatchingKey c table'
  end.

(** Modelled from the spec: [charMatchTest] of the missing [./utils]
    (section 4.1): "returns the first table key whose predicate matches
    [char], else none", [char] being a one-character string. *)
Definition charMatchTest (char : string) (table : MaskDefinitions)
  : option ascii :=
  match char with
  | String c EmptyString => firstMatchingKey c table
  | _ => None
  end.

(** Modelled from the spec: the use of a rule by the missing helpers,
    "applying the slot's transform if present". *)
Definition applyRule (rule : Rule) (c : ascii) : ascii :=
  match transform rule with
  | Some f => f c
  | None => c
  end.

(** Modelled from the spec: the search of a slot of the missing [applyMask]
    in the raw input (section 4.2).  "A raw character that fails its slot's
    predicate is dropped (skipped)": the result starts at "the next raw
    character that satisfies the slot predicate", and is empty when there is
    none. *)
Fixpoint dropUnmatched (rule : Rule) (raw : string) : string :=
  match raw with
  | EmptyString => EmptyString
  | String c raw' =>
      if matches rule c then raw else dropUnmatched rule raw'
  end.

(** Modelled from the spec: the walk of the missing [applyMask] (section
    4.2) over the pattern, with "an independent cursor into [raw]".  A
    literal is emitted and "only if a pending raw character equals that
    literal" consumes it; a slot consumes "the next raw character that
    satisfies the slot predicate" and emits it transformed; "if no raw
    characters remain, emit the placeholder when [guide] is true, otherwise
    stop emitting" (scenario 2: ["555"] gives ["(555"]). *)
Fixpoint walk (placeholder : string) (guide : bool) (table : MaskDefinitions)
  (pattern raw : string) : string :=
  match pattern with
  | EmptyString => EmptyString
  | String p pattern' =>
      match lookup p table with
      | None =>
          match raw with
          | EmptyString =>
              if guide
              then String p (walk placeholder guide table pattern' EmptyString)
              else EmptyString
          | String r raw' =>
              String p (walk placeholder guide table pattern'
                          (if Ascii.eqb r p then raw' else raw))
          end
      | Some rule =>
          match dropUnmatched rule raw with
          | String c rest =>
              String (applyRule rule c)
                (walk placeholder guide table pattern' rest)
          | EmptyString =>
              if guide
              then placeholder ++ walk placeholder guide table pattern' EmptyString
              else EmptyString
          end
      end
  end.

(** Modelled from the spec: the test of the missing [applyMask] for "an
    empty/all-placeholder raw value" (section 4.2). *)
Fixpoint allPlaceholders (placeholder raw : string) : bool :=
  match raw with
  | EmptyString => true
  | String c raw' =>
      (String c EmptyString =? placeholder)%string
      && allPlaceholders placeholder raw'
  end.

(** Modelled from the spec: [applyMask] of the missing [./utils] (section
    4.2).  "[allowEmpty]: when true, an empty/all-placeholder raw value
    formats to an all-literal/placeholder skeleton string rather than
    collapsing to empty; when false, an empty raw input formats to the empty
    string"; any other raw value is walked along the pattern. *)
Definition applyMask (raw pattern placeholder : string)
  (guide allowEmpty : bool) (table : MaskDefinitions) : string :=
  if allowEmpty && allPlaceholders placeholder raw then
    walk placeholder true table pattern EmptyString
  else if (raw =? "")%string then ""
  else walk placeholder guide table pattern raw.

(** Modelled from the spec: the comparison of the missing [maskStrip]
    (section 4.3), "position-by-position ... against the pattern": a
    character is "retained iff position is a slot AND character !=
    placeholder. Literal positions are always dropped regardless of
    content." *)
Fixpoint strip (formatted pattern placeholder : string)
  (table : MaskDefinitions) : string :=
  match formatted, pattern with
  | String c formatted', String p pattern' =>
      if isSlot p table && negb (String c EmptyString =? placeholder)%string
      then String c (strip formatted' pattern' placeholder table)
      else strip formatted' pattern' placeholder table
  | _, _ => EmptyString
  end.

(** Modelled from the spec: [maskStrip] of the missing [./utils] (section
    4.3); an undefined value has no character to retain. *)
Definition maskStrip (formatted : option string)
  (pattern placeholder : string) (table : MaskDefinitions) : string :=
  strip (withDefault "" formatted) pattern placeholder table.

(** Modelled from the spec: [inputReformat] of the missing [./utils]
    (section 4.4): "strip [editedValue] using the pattern to get candidate
    raw characters in slot order (section 4.3) ... Returns the stripped
    value". *)
Definition inputReformat (editedValue pattern placeholder : string)
  (guide allowEmpty : bool) (table : MaskDefinitions) : string :=
  maskStrip (Some editedValue) pattern placeholder table.

(** Modelled from the spec: the positional comparison of the missing
    [applyTransform] (section 4.5): "for positions beyond [strippedPrev]'s
    length, or positions whose character differs from [strippedPrev], apply
    the corresponding slot's transform (looked up via [strippedPattern]);
    positions unchanged from [strippedPrev] pass through untouched." *)
Fixpoint transformFrom (strippedNew strippedPrev strippedPattern : string)
  (table : MaskDefinitions) : string :=
  match strippedNew with
  | EmptyString => EmptyString
  | String c new' =>
      let unchanged :=
        match strippedPrev with
        | String d _ => Ascii.eqb c d
        | EmptyString => false
        end in
      let c' :=
        if unchanged then c
        else match strippedPattern with
             | String p _ =>
                 match lookup p table with
                 | Some rule => applyRule rule c
                 | None => c
                 end
             | EmptyString => c
             end in
      String c'
        (transformFrom new'
           (match strippedPrev with String _ t => t | EmptyString => EmptyString end)
           (match strippedPattern with String _ t => t | EmptyString => EmptyString end)
           table)
  end.

(** Modelled from the spec: [applyTransform] of the missing [./utils]
    (section 4.5); every position lies beyond an undefined previous
    value. *)
Definition applyTransform (strippedNew : string) (strippedPrev : option string)
  (strippedPattern : string) (table : MaskDefinitions) : string :=
  transformFrom strippedNew (withDefault "" strippedPrev) strippedPattern table.

(** Modelled from the spec: the scan of the missing [firstUnfilledPosition]
    from offset [position] on (section 4.6, focus): "the earliest slot
    position whose current character is the placeholder (or earliest slot
    position if none is filled); if all slots are filled, land after the
    last slot".  A slot position past the end of the value holds no
    character and is unfilled; [afterLastSlot] is the offset after the last
    slot met. *)
Fixpoint firstUnfilledFrom (value pattern placeholder : string)
  (table : MaskDefinitions) (position : Z) (afterLastSlot : Z) : Z :=
  match pattern with
  | EmptyString => afterLastSlot
  | String p pattern' =>
      let rest := match value with String _ t => t | EmptyString => EmptyString end in
      if isSlot p table then
        match value with
        | String c _ =>
            if (String c EmptyString =? placeholder)%string then position
            else firstUnfilledFrom rest pattern' placeholder table
                   (position + 1) (position + 1)
        | EmptyString => position
        end
      else firstUnfilledFrom rest pattern' placeholder table
             (position + 1) afterLastSlot
  end.

(** Modelled from the spec: [firstUnfilledPosition] of the missing [./utils]
    (section 4.6): "move caret to the first unfilled position". *)
Definition firstUnfilledPosition (value pattern placeholder : string)
  (table : MaskDefinitions) : Z :=
  firstUnfilledFrom value pattern placeholder table 0 0.

(** Modelled from the spec: [isPatternComplete] of the missing [./utils]
    (sections 3 and 6): the pattern is complete when "all slots become
    filled", a filled slot position holding "a character satisfying that
    slot's predicate". *)
Fixpoint isPatternComplete (formatted pattern : string)
  (table : MaskDefinitions) : bool :=
  match pattern with
  | EmptyString => true
  | String p pattern' =>
      match lookup p table, formatted with
      | Some rule, String c formatted' =>
          matches rule c && isPatternComplete formatted' pattern' table
      | Some _, EmptyString => false
      | None, String _ formatted' => isPatternComplete formatted' pattern' table
      | None, EmptyString => isPatternComplete EmptyString pattern' table
      end
  end.

(** The characters of a pattern. *)
Definition chars (pattern : string) : list ascii := list_ascii_of_string pattern.

(** A rule whose transform maps every accepted character to an accepted
    character that it leaves unchanged. *)
Definition settles (rule : Rule) : Prop :=
  forall c, matches rule c = true ->
    matches rule (applyRule rule c) = true
    /\ applyRule rule (applyRule rule c) = applyRule rule c.

(** A table and a pattern such that formatted values can be told apart
    from raw input: the rule of every slot of the pattern settles, and
    rejects the placeholder and every literal of the pattern. *)
Definition settled (table : MaskDefinitions) (placeholder : ascii)
  (pattern : string) : Prop :=
  forall slot rule,
    In slot (chars pattern) -> lookup slot table = Some rule ->
    settles rule
    /\ matches rule placeholder = false
    /\ forall literal, In literal (chars pattern) ->
         lookup literal table = None -> matches rule literal = false.


(** A table and a pattern whose slots settle and reject the literals of
    the pattern. *)
Definition separated (table : MaskDefinitions) (pattern : string) : Prop :=
  forall slot rule,
    In slot (chars pattern) -> lookup slot table = Some rule ->
    settles rule
    /\ forall literal, In literal (chars pattern) ->
         lookup literal table = None -> matches rule literal = false.


#[export] Instance imports : Imports MaskDefinitions := {
  applyMask := applyMask;
  applyTransform := applyTransform;
  firstUnfilledPosition := firstUnfilledPosition;
  inputReformat := inputReformat;
  isPatternComplete := isPatternComplete;
  maskStrip := maskStrip;
  charMatchTest := charMatchTest;
  validCaretPositions := validCaretPositions;
  defaultMaskDefinitions := defaultMaskDefinitions;
}.

End SpecUtils.


(** ** Vocabulary of the statements *)

(** [m] is the valid position nearest to [position] among those strictly
    greater than it. *)
Definition nearestAbove (validPositions : list Z) (position m : Z) : Prop :=
  In m validPositions /\ position < m
  /\ forall v, In v validPositions -> position < v -> m <= v.

(** [m] is the valid position nearest to [position] among those strictly
    less than it. *)
Definition nearestBelow (validPositions : list Z) (position m : Z) : Prop :=
  In m validPositions /\ m < position
  /\ forall v, In v validPositions -> v < position -> v <= m.

(** [m] is the valid position nearest to [position] among those at or
    before it. *)
Definition nearestAtOrBelow (validPositions : list Z) (position m : Z) : Prop :=
  In m validPositions /\ m <= position
  /\ forall v, In v validPositions -> v <= position -> v <= m.

(** A handler effect that leaves the stored value of the host input alone
    and, when it moves the caret, sets a collapsed selection. *)
Definition caretOnly (effect : HostEffect) : Prop :=
  match effect with
  | Persist | PreventDefault => True
  | SetSelectionRange selectionStart selectionEnd =>
      selectionStart = selectionEnd
  | AssignValue _ => False
  end.

(** How often [normalize] schedules or calls something in [effects]. *)
Definition isDeferred {Callback : Type} (effect : CallbackEffect Callback) : bool :=
  match effect with
  | SetTimeout _ _ _ => true
  | Call _ _ => false
  end.

Definition deferredCalls {Callback : Type} (effects : list (CallbackEffect Callback))
  : list (CallbackEffect Callback) :=
  filter isDeferred effects.

Definition directCalls {Callback : Type} (effects : list (CallbackEffect Callback))
  : list (CallbackEffect Callback) :=
  filter (fun effect => negb (isDeferred effect)) effects.

(** "The caret moves to [position]": the handler sets the collapsed
    selection [[position, position]]. *)
Definition movesCaretTo (effects : list HostEffect) (position : Z) : Prop :=
  In (SetSelectionRange (Some position) (Some position)) effects.

(** The effects of a handler that moves the caret to [position]: the event
    is persisted when it can be, then the collapsed selection is set. *)
Definition caretMove (event : Event.t) (position : Z) : list HostEffect :=
  ((if Event.persist event then [Persist] else [])
   ++ [SetSelectionRange (Some position) (Some position)])%list.


(** The rule for ArrowLeft with a strict comparison: the caret moves to the
    nearest valid position strictly less than [offset], and to the first valid
    position when there is none. *)
Definition arrowLeftStrict (validPositions : list Z) (offset : Z)
  (effects : list HostEffect) : Prop :=
  (forall m, nearestBelow validPositions offset m -> movesCaretTo effects m)
  /\ ((forall v, In v validPositions -> offset <= v) ->
      forall first, hd_error validPositions = Some first ->
        movesCaretTo effects first).

(** The rule for a change event with a test for a literal: the caret moves
    left of [previousSelection] when the value grew by one character and the
    pattern holds, at [previousSelection], a literal ([literal] tells so)
    equal to the character of the value there; it moves to the first unfilled
    position in every other case. *)
Definition changeOverLiteral (validPositions : list Z) (pattern : string)
  (literal : bool) (firstUnfilled : Z) (previousValue : string)
  (previousSelection : Z) (value : string) (effects : list HostEffect) : Prop :=
  let backspace :=
    JS.length value = JS.length previousValue + 1
    /\ literal = true
    /\ JS.charAt value previousSelection = JS.charAt pattern previousSelection in
  (backspace ->
   forall m, nearestBelow validPositions previousSelection m ->
     movesCaretTo effects m)
  /\ (~ backspace -> movesCaretTo effects firstUnfilled).

(** The rule "[onChange] is called exactly when the new stored value differs
    from the previous one". *)
Definition onChangeWhenDifferent {Callback : Type} (callback : Callback)
  (previousValue : option string)
  (outcome : string * list (CallbackEffect Callback)) : Prop :=
  In (Call callback (fst outcome)) (snd outcome)
  <-> Some (fst outcome) <> previousValue.


(** The call of [event.persist], made when the event has the method. *)
Definition persisted (event : Event.t) : list HostEffect :=
  if Event.persist event then [Persist] else [].

(** What a handler does once the event is persisted: nothing, one
    [preventDefault], or one collapsed selection. *)
Definition singleAction (effects : list HostEffect) : Prop :=
  effects = []
  \/ effects = [PreventDefault]
  \/ exists caretPos, effects = [SetSelectionRange caretPos caretPos].

(** ** Concrete configurations over the reference helpers *)

Module Examples.

Definition Callback : Type := string.

Definition options (pattern : string) (guide stripMask : bool)
  : Options.t SpecUtils.MaskDefinitions Callback :=
  {| Options.pattern := Some pattern;
     Options.placeholder := None;
     Options.maskDefinitions := None;
     Options.guide := Some guide;
     Options.stripMask := Some stripMask;
     Options.allowEmpty := None;
     Options.onChange := Some "onChange";
     Options.onCompletePattern := Some "onCompletePattern" |}.

(** The engine for [options], over the reference helpers. *)
Definition engine (pattern : string) (guide stripMask : bool)
  : Engine.t Callback :=
  operations (imports := SpecUtils.imports) (options pattern guide stripMask).

Definition event (type key : string) (value : string)
  (selectionStart selectionEnd : Z) : Event.t :=
  {| Event.target :=
       Some {| Target.value := value;
               Target.selectionStart := selectionStart;
               Target.selectionEnd := selectionEnd |};
     Event.persist := true;
     Event.type := type;
     Event.key := key |}.

Definition target (value : string) (selectionStart selectionEnd : Z)
  : Target.t :=
  {| Target.value := value;
     Target.selectionStart := selectionStart;
     Target.selectionEnd := selectionEnd |}.

End Examples.

(** ** The caret lookup *)

Section CaretLookup.

Variable validPositions : list Z.

Lemma JS_index_nat {A : Type} (a : list A) (i : nat) :
  JS.index a (Some (Z.of_nat i)) = nth_error a i.
Proof.
  unfold JS.index.
  destruct (Z.ltb_spec (Z.of_nat i) 0) as [Hneg|_]; [lia|].
  now rewrite Nat2Z.id.
Qed.

Lemma JS_index_In {A : Type} (a : list A) (i : option Z) (x : A) :
  JS.index a i = Some x -> In x a.
Proof.
  destruct i as [i|]; simpl; [|discriminate].
  destruct (i <? 0); [discriminate|].
  apply nth_error_In.
Qed.

(** The scan stops at the first index whose element exceeds [position]. *)
Lemma nearestIndexToTheRightFrom_spec (position : Z) (remaining index : nat) :
  match nearestIndexToTheRightFrom validPositions position (Z.of_nat index)
          remaining with
  | Some found =>
      exists j, found = Z.of_nat j /\ (index <= j)%nat
        /\ (exists e, nth_error validPositions j = Some e /\ position < e)
        /\ forall k e, (index <= k < j)%nat ->
             nth_error validPositions k = Some e -> e <= position
  | None =>
      forall k e, (index <= k < index + remaining)%nat ->
        nth_error validPositions k = Some e -> e <= position
  end.
Proof.
  revert index. induction remaining as [|remaining IH]; intro index.
  - simpl. intros k e Hk. lia.
  - cbn [nearestIndexToTheRightFrom]. rewrite JS_index_nat.
    destruct (nth_error validPositions index) as [e|] eqn:He;
      unfold JS.gt; cbv iota.
    + destruct (Z.gtb_spec e position) as [Hgt|Hle].
      * exists index. repeat split; eauto; lia.
      * replace (Z.of_nat index + 1) with (Z.of_nat (S index)) by lia.
        specialize (IH (S index)).
        destruct (nearestIndexToTheRightFrom _ _ _ _) as [found|].
        -- destruct IH as (j & -> & Hj & Hex & Hbelow).
           exists j. repeat split; auto; try lia.
           intros k e' Hk Hk'.
           destruct (Nat.eq_dec k index) as [->|Hne].
           ++ rewrite He in Hk'. injection Hk' as <-. exact Hle.
           ++ apply (Hbelow k); [lia|exact Hk'].
        -- intros k e' Hk Hk'.
           destruct (Nat.eq_dec k index) as [->|Hne].
           ++ rewrite He in Hk'. injection Hk' as <-. exact Hle.
           ++ apply (IH k); [lia|exact Hk'].
    + replace (Z.of_nat index + 1) with (Z.of_nat (S index)) by lia.
      specialize (IH (S index)).
      destruct (nearestIndexToTheRightFrom _ _ _ _) as [found|].
      * destruct IH as (j & -> & Hj & Hex & Hbelow).
        exists j. repeat split; auto; try lia.
        intros k e' Hk Hk'.
        destruct (Nat.eq_dec k index) as [->|Hne]; [congruence|].
        apply (Hbelow k); [lia|exact Hk'].
      * intros k e' Hk Hk'.
        destruct (Nat.eq_dec k index) as [->|Hne]; [congruence|].
        apply (IH k); [lia|exact Hk'].
Qed.

(** The whole loop: either the first index of an element greater than
    [position], or nothing when no element is greater. *)
Lemma nearestIndexToTheRight_spec (position : Z) :
  match nearestIndexToTheRightFrom validPositions position 0
          (S (List.length validPositions)) with
  | Some found =>
      exists j e, found = Z.of_nat j
        /\ nth_error validPositions j = Some e /\ position < e
        /\ forall k e', (k < j)%nat ->
             nth_error validPositions k = Some e' -> e' <= position
  | None => forall v, In v validPositions -> v <= position
  end.
Proof.
  pose proof (nearestIndexToTheRightFrom_spec position
                (S (List.length validPositions)) 0) as H.
  change (Z.of_nat 0) with 0 in H.
  destruct (nearestIndexToTheRightFrom _ _ _ _) as [found|].
  - destruct H as (j & -> & _ & (e & He & Hgt) & Hbelow).
    exists j, e. repeat split; auto.
    intros k e' Hk. apply Hbelow. lia.
  - intros v Hv. apply In_nth_error in Hv. destruct Hv as [k Hk].
    apply (H k); [|exact Hk].
    assert (k < List.length validPositions)%nat
      by (apply nth_error_Some; congruence).
    lia.
Qed.

Lemma StronglySorted_nth_error (l : list Z) :
  StronglySorted Z.lt l ->
  forall i j a b, (i < j)%nat ->
    nth_error l i = Some a -> nth_error l j = Some b -> a < b.
Proof.
  induction 1 as [|x l Hsorted IH Hall]; intros i j a b Hij Hi Hj.
  - destruct i; discriminate.
  - destruct j as [|j]; [lia|]. simpl in Hj.
    destruct i as [|i]; simpl in Hi.
    + injection Hi as <-. rewrite Forall_forall in Hall.
      apply Hall. now apply nth_error_In with j.
    + apply (IH i j); auto. lia.
Qed.

(** With no valid position beyond [position], the lookup to the right
    falls back to the last valid position. *)
Lemma nearestValidPosition_right_fallback (position : Z) :
  (forall v, In v validPositions -> v <= position) ->
  nearestValidPosition validPositions position right
  = JS.index validPositions (Some (Z.of_nat (List.length validPositions) - 1)).
Proof.
  intros Hall. unfold nearestValidPosition.
  pose proof (nearestIndexToTheRight_spec position) as H.
  destruct (nearestIndexToTheRightFrom _ _ _ _) as [found|].
  - destruct H as (j & e & _ & He & Hgt & _).
    apply nth_error_In in He. apply Hall in He. lia.
  - reflexivity.
Qed.

(** With a valid position beyond [position], the lookup to the right finds
    the nearest one. *)
Lemma nearestValidPosition_right_nearest (position : Z) :
  StronglySorted Z.lt validPositions ->
  (exists v, In v validPositions /\ position < v) ->
  exists m, nearestValidPosition validPositions position right = Some m
    /\ nearestAbove validPositions position m.
Proof.
  intros Hsorted (v & Hv & Hgt). unfold nearestValidPosition.
  pose proof (nearestIndexToTheRight_spec position) as H.
  destruct (nearestIndexToTheRightFrom _ _ _ _) as [found|].
  - destruct H as (j & e & -> & He & Hpe & Hbelow).
    rewrite JS_index_nat, He. exists e. split; [reflexivity|].
    split; [now apply nth_error_In with j|]. split; [exact Hpe|].
    intros w Hw Hpw. apply In_nth_error in Hw. destruct Hw as [k Hk].
    destruct (Nat.lt_trichotomy k j) as [Hlt|[->|Hlt]].
    + specialize (Hbelow k w Hlt Hk). lia.
    + rewrite He in Hk. injection Hk as <-. lia.
    + pose proof (StronglySorted_nth_error _ Hsorted j k e w Hlt He Hk). lia.
  - specialize (H v Hv). lia.
Qed.

(** With valid positions on both sides, the lookup to the left finds the
    nearest valid position at or before [position]. *)
Lemma nearestValidPosition_left_nearest (position : Z) :
  StronglySorted Z.lt validPositions ->
  (exists v, In v validPositions /\ position < v) ->
  (exists v, In v validPositions /\ v <= position) ->
  exists m, nearestValidPosition validPositions position left = Some m
    /\ nearestAtOrBelow validPositions position m.
Proof.
  intros Hsorted (v & Hv & Hgt) (u & Hu & Hle).
  unfold nearestValidPosition.
  pose proof (nearestIndexToTheRight_spec position) as H.
  destruct (nearestIndexToTheRightFrom _ _ _ _) as [found|].
  2:{ specialize (H v Hv). lia. }
  destruct H as (j & e & -> & He & Hpe & Hbelow).
  destruct j as [|j].
  { exfalso. apply In_nth_error in Hu. destruct Hu as [k Hk].
    destruct k as [|k]; [rewrite He in Hk; injection Hk as <-; lia|].
    pose proof (StronglySorted_nth_error _ Hsorted 0 (S k) e u
                  ltac:(lia) He Hk). lia. }
  unfold JS.pred, option_map.
  replace (Z.of_nat (S j) - 1) with (Z.of_nat j) by lia.
  rewrite JS_index_nat.
  destruct (nth_error validPositions j) as [m|] eqn:Hm.
  2:{ apply nth_error_None in Hm.
      assert (S j < List.length validPositions)%nat
        by (apply nth_error_Some; congruence).
      lia. }
  exists m. split; [reflexivity|].
  split; [now apply nth_error_In with j|].
  split; [apply (Hbelow j); [lia|exact Hm]|].
  intros w Hw Hwp. apply In_nth_error in Hw. destruct Hw as [k Hk].
  destruct (Nat.lt_trichotomy k j) as [Hlt|[->|Hlt]].
  - pose proof (StronglySorted_nth_error _ Hsorted k j w m Hlt Hk Hm). lia.
  - rewrite Hm in Hk. injection Hk as <-. lia.
  - destruct (Nat.eq_dec k (S j)) as [->|Hne].
    + rewrite He in Hk. injection Hk as <-. lia.
    + pose proof (StronglySorted_nth_error _ Hsorted (S j) k e w
                    ltac:(lia) He Hk). lia.
Qed.

(** With every valid position beyond [position], the lookup to the left
    falls back to the first valid position. *)
Lemma nearestValidPosition_left_fallback (position : Z) :
  (forall v, In v validPositions -> position < v) ->
  nearestValidPosition validPositions position left
  = JS.index validPositions (Some 0).
Proof.
  intros Hall. unfold nearestValidPosition.
  pose proof (nearestIndexToTheRight_spec position) as H.
  destruct (nearestIndexToTheRightFrom _ _ _ _) as [found|].
  - destruct H as (j & e & -> & He & Hpe & Hbelow).
    destruct j as [|j]; [reflexivity|].
    destruct (nth_error validPositions j) as [m|] eqn:Hm.
    + pose proof (Hbelow j m ltac:(lia) Hm).
      apply nth_error_In in Hm. apply Hall in Hm. lia.
    + apply nth_error_None in Hm.
      assert (S j < List.length validPositions)%nat
        by (apply nth_error_Some; congruence).
      lia.
  - reflexivity.
Qed.

(** With no valid position beyond [position], the index found by the scan
    is [undefined] and the lookup to the left falls back to the first
    valid position as well, whatever lies before [position]. *)
Lemma nearestValidPosition_left_nothing_beyond (position : Z) :
  (forall v, In v validPositions -> v <= position) ->
  nearestValidPosition validPositions position left
  = JS.index validPositions (Some 0).
Proof.
  intros Hall. unfold nearestValidPosition.
  pose proof (nearestIndexToTheRight_spec position) as H.
  destruct (nearestIndexToTheRightFrom _ _ _ _) as [found|].
  - destruct H as (j & e & _ & He & Hgt & _).
    apply nth_error_In in He. apply Hall in He. lia.
  - reflexivity.
Qed.

(** A list of valid positions that is not empty answers every lookup with
    one of its elements. *)
Lemma nearestValidPosition_defined (position : Z) (direction : Direction) :
  validPositions <> [] ->
  exists caretPos,
    nearestValidPosition validPositions position direction = Some caretPos
    /\ In caretPos validPositions.
Proof.
  intros Hne. unfold nearestValidPosition.
  set (caretPos := match direction with
                   | left => JS.index validPositions _
                   | right => JS.index validPositions _
                   end).
  destruct caretPos as [p|] eqn:Hp.
  - exists p. split; [reflexivity|].
    subst caretPos. destruct direction; eapply JS_index_In; exact Hp.
  - destruct validPositions as [|v rest] eqn:Hv; [congruence|].
    destruct direction.
    + exists v. split; [reflexivity|now left].
    + replace (Z.of_nat (List.length (v :: rest)) - 1)
        with (Z.of_nat (List.length rest)) by (cbn [List.length]; lia).
      rewrite JS_index_nat.
      destruct (nth_error (v :: rest) (List.length rest)) as [p|] eqn:Hlast.
      * exists p. split; [reflexivity|]. now apply nth_error_In with (List.length rest).
      * apply nth_error_None in Hlast. cbn [List.length] in Hlast. lia.
Qed.

End CaretLookup.


(** ** Properties of the engine *)

Section Properties.

Context {MaskDefinitions Callback : Type}.
Context {imports : Imports MaskDefinitions}.

Let Options : Type := Options.t MaskDefinitions Callback.

Lemma JS_length_one (s : string) :
  (JS.length s =? 1) = true <-> String.length s = 1%nat.
Proof. unfold JS.length. rewrite Z.eqb_eq. lia. Qed.

Lemma length_zero_nil {A : Type} (l : list A) :
  (Z.of_nat (List.length l) =? 0) = true <-> l = [].
Proof.
  rewrite Z.eqb_eq. destruct l; simpl; split; intro H;
    try reflexivity; try lia; discriminate.
Qed.

(** What a successful construction has checked, and what it returns. *)
Lemma createTextMask_Ok (options : Options) (engine : Engine.t Callback) :
  createTextMask options = Ok engine ->
  JS.not (Options.pattern options) = false
  /\ String.length (get_placeholder options) = 1%nat
  /\ get_validPositions options <> []
  /\ charMatchTest (get_placeholder options) (get_maskDefinitions options) = None
  /\ engine = operations options.
Proof.
  unfold createTextMask.
  destruct (JS.not (Options.pattern options)); [discriminate|].
  destruct (JS.not (Some (get_placeholder options))) eqn:Hempty; simpl;
    [discriminate|].
  destruct (JS.length (get_placeholder options) =? 1) eqn:Hone; simpl;
    [|discriminate].
  destruct (Z.of_nat (List.length (get_validPositions options)) =? 0) eqn:Hnil;
    [discriminate|].
  destruct (charMatchTest _ _) eqn:Hmatch; [discriminate|].
  intro H. injection H as <-.
  repeat split; auto.
  - now apply JS_length_one.
  - intro Hn. apply length_zero_nil in Hn. congruence.
Qed.

(** Inside [normalize], [format] always applies the mask. *)
Lemma format_calledFromNormalize pattern placeholder maskDefinitions
  guide stripMask allowEmpty (value : string) :
  format pattern placeholder maskDefinitions guide stripMask allowEmpty
    (Some value) true
  = applyMask value pattern placeholder guide allowEmpty maskDefinitions.
Proof.
  unfold format, JS.not.
  destruct (String.eqb_spec value "") as [->|_]; [reflexivity|].
  rewrite andb_false_r. reflexivity.
Qed.

(** C1: [normalize] returns the value obtained by reformatting the edited
    value ([inputReformat]), stripping it ([maskStrip]), transforming it
    against the previous stripped value ([applyTransform]) and formatting
    it ([applyMask]): the transformed raw value when [stripMask] is set,
    the formatted value otherwise. *)
Theorem normalize_pipeline (options : Options) (engine : Engine.t Callback)
  (editedValue : string) (previousValue : option string) :
  createTextMask options = Ok engine ->
  let pattern := get_pattern options in
  let placeholder := get_placeholder options in
  let maskDefinitions := get_maskDefinitions options in
  let guide := get_guide options in
  let allowEmpty := get_allowEmpty options in
  let reformatted :=
    inputReformat editedValue pattern placeholder guide allowEmpty
      maskDefinitions in
  let stripped :=
    maskStrip (Some reformatted) pattern placeholder maskDefinitions in
  let previousStripped :=
    if get_stripMask options then previousValue
    else Some (maskStrip previousValue pattern placeholder maskDefinitions) in
  let transformed :=
    applyTransform stripped previousStripped
      (maskStrip (Some pattern) pattern placeholder maskDefinitions)
      maskDefinitions in
  let formatted :=
    applyMask transformed pattern placeholder guide allowEmpty
      maskDefinitions in
  fst (Engine.normalize engine editedValue previousValue)
  = if get_stripMask options then transformed else formatted.
Proof.
  intros Hok. apply createTextMask_Ok in Hok.
  destruct Hok as (_ & _ & _ & _ & ->).
  cbv zeta. unfold operations, normalize. cbn [Engine.normalize fst].
  rewrite format_calledFromNormalize.
  reflexivity.
Qed.

(** C2: construction throws exactly when the pattern is absent, or the
    placeholder is not one character long, or the pattern has no valid
    caret position, or the placeholder matches a slot; otherwise it
    returns the operations of the engine.  The helper is taken to find
    no valid caret position in an empty pattern. *)
Theorem createTextMask_throws_iff (options : Options) :
  validCaretPositions "" (get_maskDefinitions options) = [] ->
  let failing :=
    Options.pattern options = None
    \/ String.length (get_placeholder options) <> 1%nat
    \/ validCaretPositions (get_pattern options) (get_maskDefinitions options)
       = []
    \/ (exists marker,
           charMatchTest (get_placeholder options) (get_maskDefinitions options)
           = Some marker) in
  ((exists message, createTextMask options = Throw message) <-> failing)
  /\ (~ failing -> createTextMask options = Ok (operations options)).
Proof.
  intros Hempty failing.
  assert (Hdec : failing \/ createTextMask options = Ok (operations options)).
  { unfold failing, createTextMask.
    fold (get_validPositions options).
    destruct (Options.pattern options) as [pattern|] eqn:Hp; [|now left; left].
    simpl JS.not at 1.
    destruct (String.eqb_spec pattern "") as [->|Hne].
    { left. right. right. left. unfold get_validPositions.
      unfold get_pattern. rewrite Hp. exact Hempty. }
    destruct (JS.not (Some (get_placeholder options))) eqn:Hph; simpl.
    { left. right. left. simpl in Hph. apply String.eqb_eq in Hph.
      rewrite Hph. discriminate. }
    destruct (JS.length (get_placeholder options) =? 1) eqn:Hone; simpl.
    2:{ left. right. left. intro Hl. apply JS_length_one in Hl. congruence. }
    destruct (Z.of_nat (List.length (get_validPositions options)) =? 0) eqn:Hnil.
    { left. right. right. left. now apply length_zero_nil. }
    destruct (charMatchTest _ _) eqn:Hmatch.
    { left. right. right. right. eauto. }
    now right. }
  assert (Hthrow : failing -> exists message, createTextMask options = Throw message).
  { unfold createTextMask.
    fold (get_validPositions options).
    intros Hf.
    destruct (JS.not (Options.pattern options)) eqn:Hp; [eauto|].
    destruct (JS.not (Some (get_placeholder options))) eqn:Hph; simpl; [eauto|].
    destruct (JS.length (get_placeholder options) =? 1) eqn:Hone; simpl; [|eauto].
    destruct (Z.of_nat (List.length (get_validPositions options)) =? 0) eqn:Hnil;
      [eauto|].
    destruct (charMatchTest _ _) eqn:Hmatch; [eauto|].
    exfalso. destruct Hf as [Hf|[Hf|[Hf|[marker Hf]]]].
    - rewrite Hf in Hp. discriminate.
    - apply Hf. now apply JS_length_one.
    - apply length_zero_nil in Hf. unfold get_validPositions in Hnil.
      congruence.
    - discriminate. }
  split; [split|].
  - intros [message Hm]. destruct Hdec as [Hf|Hok]; [exact Hf|congruence].
  - exact Hthrow.
  - intros Hnf. destruct Hdec as [Hf|Hok]; [contradiction|exact Hok].
Qed.

(** *** The event handlers *)

Lemma hasValueChanged_spec (newValue : string) (previousValue : option string) :
  hasValueChanged newValue previousValue = true
  <-> Some newValue <> previousValue
      /\ (newValue <> "" \/ previousValue <> None).
Proof.
  unfold hasValueChanged. destruct previousValue as [p|].
  - destruct (String.eqb_spec newValue p) as [->|Hne]; simpl.
    + split; [discriminate|]. intros [H _]. congruence.
    + rewrite orb_true_r. split; [|reflexivity]. intros _.
      split; [congruence|right; discriminate].
  - simpl. rewrite orb_false_r.
    destruct (String.eqb_spec newValue "") as [->|Hne]; simpl.
    + split; [discriminate|]. intros [_ [H|H]]; congruence.
    + split; [|reflexivity]. intros _. split; [discriminate|now left].
Qed.

Lemma operations_handlers (options : Options) :
  let manage :=
    manageCaretPosition (get_pattern options) (get_placeholder options)
      (get_maskDefinitions options) (get_validPositions options) in
  Engine.onKeyDown (operations options) = manage
  /\ Engine.onChange (operations options) = manage
  /\ Engine.onFocus (operations options) = manage
  /\ Engine.onClick (operations options) = manage.
Proof. repeat split. Qed.

Section Handler.

Variables pattern placeholder : string.
Variable maskDefinitions : MaskDefinitions.
Variable validPositions : list Z.

Let deferred :=
  manageCaretPositionDeferred pattern placeholder maskDefinitions
    validPositions.
Let manage :=
  manageCaretPosition pattern placeholder maskDefinitions validPositions.

Lemma deferred_ArrowLeft previousSelection previousValue target :
  deferred previousSelection previousValue "keydown" "ArrowLeft" target
  = let caretPos :=
      nearestValidPosition validPositions
        (Target.selectionStart target) left in
    [SetSelectionRange caretPos caretPos].
Proof. reflexivity. Qed.

Lemma deferred_ArrowRight previousSelection previousValue target :
  deferred previousSelection previousValue "keydown" "ArrowRight" target
  = let caretPos :=
      nearestValidPosition validPositions previousSelection right in
    [SetSelectionRange caretPos caretPos].
Proof. reflexivity. Qed.

Lemma deferred_change previousSelection previousValue key target :
  deferred previousSelection previousValue "change" key target
  = if (JS.length (Target.value target) =? JS.length previousValue + 1)
       && (JS.charAt (Target.value target) previousSelection
           =? JS.charAt pattern previousSelection)%string
    then
      let caretPos :=
        nearestValidPosition validPositions previousSelection left in
      [SetSelectionRange caretPos caretPos]
    else
      goToFirstUnfilledPosition pattern placeholder maskDefinitions target.
Proof. reflexivity. Qed.

Lemma manage_target event dispatched updated :
  Event.target event = Some dispatched ->
  manage event updated
  = ((if Event.persist event then [Persist] else [])
     ++ deferred (Target.selectionStart dispatched)
          (Target.value dispatched) (Event.type event) (Event.key event)
          updated)%list.
Proof. intros H. unfold manage, manageCaretPosition. now rewrite H. Qed.

Lemma deferred_caretOnly previousSelection previousValue type key target :
  Forall caretOnly
    (deferred previousSelection previousValue type key target).
Proof.
  unfold deferred, manageCaretPositionDeferred, goToFirstUnfilledPosition.
  repeat match goal with
         | |- context [if ?b then _ else _] => destruct b
         end;
    repeat constructor.
Qed.

Lemma manage_caretOnly event updated :
  Forall caretOnly (manage event updated).
Proof.
  unfold manage, manageCaretPosition.
  destruct (Event.target event) as [dispatched|]; [|constructor].
  apply Forall_app. split.
  - destruct (Event.persist event); repeat constructor.
  - apply deferred_caretOnly.
Qed.

End Handler.

(** C8: whatever the event, each of the four handlers only persists the
    event, prevents its default action or sets a collapsed selection
    [[pos, pos]] on the host input; none writes the value of the input. *)
Theorem handlers_caret_only (options : Options) (engine : Engine.t Callback)
  (event : Event.t) (updated : Target.t) :
  createTextMask options = Ok engine ->
  Forall caretOnly (Engine.onKeyDown engine event updated)
  /\ Forall caretOnly (Engine.onChange engine event updated)
  /\ Forall caretOnly (Engine.onFocus engine event updated)
  /\ Forall caretOnly (Engine.onClick engine event updated).
Proof.
  intros Hok. apply createTextMask_Ok in Hok.
  destruct Hok as (_ & _ & _ & _ & ->).
  repeat split; apply manage_caretOnly.
Qed.

Lemma index_first (l : list Z) :
  l <> [] -> JS.index l (Some 0) = Some (hd 0 l).
Proof. destruct l; [congruence|reflexivity]. Qed.

Lemma index_last (l : list Z) :
  l <> [] ->
  JS.index l (Some (Z.of_nat (List.length l) - 1)) = Some (last l 0).
Proof.
  intros Hne. destruct l as [|x l]; [congruence|]. clear Hne.
  replace (Z.of_nat (List.length (x :: l)) - 1)
    with (Z.of_nat (List.length l)) by (cbn [List.length]; lia).
  rewrite JS_index_nat.
  revert x. induction l as [|y l IH]; intro x; [reflexivity|].
  cbn [List.length nth_error]. rewrite IH. reflexivity.
Qed.

(** C7: after a successful construction every caret lookup is defined:
    from every offset and in both directions it resolves to a valid
    position, and every selection a handler sets is a defined offset. *)
Theorem caret_lookup_defined (options : Options) (engine : Engine.t Callback) :
  createTextMask options = Ok engine ->
  (forall target position direction,
      exists caretPos,
        In caretPos (get_validPositions options)
        /\ goToNearestValidPosition (get_validPositions options) target
             position direction
           = [SetSelectionRange (Some caretPos) (Some caretPos)])
  /\ (forall handler event updated a b,
         In handler [Engine.onKeyDown engine; Engine.onChange engine;
                     Engine.onFocus engine; Engine.onClick engine] ->
         In (SetSelectionRange a b) (handler event updated) ->
         exists caretPos, a = Some caretPos /\ b = Some caretPos).
Proof.
  intros Hok. apply createTextMask_Ok in Hok.
  destruct Hok as (_ & _ & Hne & _ & ->).
  split.
  - intros target position direction. unfold goToNearestValidPosition.
    destruct (nearestValidPosition_defined (get_validPositions options)
                position direction Hne) as (caretPos & -> & Hin).
    exists caretPos. split; [exact Hin|reflexivity].
  - intros handler event updated a b Hhandler Hin.
    assert (handler = manageCaretPosition (get_pattern options)
                        (get_placeholder options) (get_maskDefinitions options)
                        (get_validPositions options)) as ->.
    { cbn [In] in Hhandler.
      destruct Hhandler as [<-|[<-|[<-|[<-|[]]]]]; reflexivity. }
    unfold manageCaretPosition in Hin.
    destruct (Event.target event) as [dispatched|]; [|destruct Hin].
    apply in_app_or in Hin. destruct Hin as [Hin|Hin].
    { destruct (Event.persist event); cbn [In] in Hin;
        [destruct Hin as [Hin|[]]; discriminate|destruct Hin]. }
    unfold manageCaretPositionDeferred, goToFirstUnfilledPosition,
    goToNearestValidPosition in Hin.
    pose proof (nearestValidPosition_defined (get_validPositions options)
                  (Target.selectionStart dispatched) left Hne)
      as (p1 & Hp1 & _).
    pose proof (nearestValidPosition_defined (get_validPositions options)
                  (Target.selectionStart updated) left Hne)
      as (p2 & Hp2 & _).
    pose proof (nearestValidPosition_defined (get_validPositions options)
                  (Target.selectionStart dispatched) right Hne)
      as (p3 & Hp3 & _).
    rewrite ?Hp1, ?Hp2, ?Hp3 in Hin.
    repeat match type of Hin with
           | context [if ?c then _ else _] => destruct c
           end;
      cbn [In] in Hin;
      repeat match type of Hin with
             | _ \/ _ => destruct Hin as [Hin|Hin]
             | False => destruct Hin
             end;
      try discriminate;
      injection Hin as <- <-; eauto.
Qed.


(** The arrow keys over sorted valid positions.  ArrowRight moves the caret
    to the nearest valid position strictly greater than the offset the
    caret had when the event was dispatched, or to the last valid position
    when none is greater.  ArrowLeft, when some valid position lies beyond
    the offset the caret has once the update has settled, moves the caret
    to the nearest valid position at or before that offset, or to the
    first valid position when none is at or before it. *)
Theorem keydown_arrows (options : Options) (engine : Engine.t Callback)
  (event : Event.t) (dispatched updated : Target.t) :
  createTextMask options = Ok engine ->
  StronglySorted Z.lt (get_validPositions options) ->
  Event.target event = Some dispatched ->
  Event.type event = "keydown" ->
  let validPositions := get_validPositions options in
  let effects := Engine.onKeyDown engine event updated in
  (Event.key event = "ArrowRight" ->
   let offset := Target.selectionStart dispatched in
   ((exists v, In v validPositions /\ offset < v) ->
    exists m, nearestAbove validPositions offset m
              /\ effects = caretMove event m)
   /\ ((forall v, In v validPositions -> v <= offset) ->
       effects = caretMove event (last validPositions 0)))
  /\ (Event.key event = "ArrowLeft" ->
      let offset := Target.selectionStart updated in
      (exists v, In v validPositions /\ offset < v) ->
      ((exists v, In v validPositions /\ v <= offset) ->
       exists m, nearestAtOrBelow validPositions offset m
                 /\ effects = caretMove event m)
      /\ ((forall v, In v validPositions -> offset < v) ->
          effects = caretMove event (hd 0 validPositions))).
Proof.
  intros Hok Hsorted Htarget Htype validPositions effects.
  apply createTextMask_Ok in Hok.
  destruct Hok as (_ & _ & Hne & _ & ->).
  subst effects. cbn [operations Engine.onKeyDown].
  rewrite (manage_target _ _ _ _ _ _ _ Htarget), Htype.
  fold validPositions in Hne, Hsorted |- *.
  unfold caretMove.
  split; intros Hkey; rewrite Hkey.
  - rewrite deferred_ArrowRight. cbv zeta. split.
    + intros Hbeyond.
      destruct (nearestValidPosition_right_nearest _ _ Hsorted Hbeyond)
        as (m & -> & Hm).
      exists m. split; [exact Hm|reflexivity].
    + intros Hnone.
      rewrite (nearestValidPosition_right_fallback _ _ Hnone).
      rewrite (index_last _ Hne). reflexivity.
  - rewrite deferred_ArrowLeft. cbv zeta. intros Hbeyond. split.
    + intros Hbefore.
      destruct (nearestValidPosition_left_nearest _ _ Hsorted Hbeyond
                  Hbefore) as (m & -> & Hm).
      exists m. split; [exact Hm|reflexivity].
    + intros Hall.
      rewrite (nearestValidPosition_left_fallback _ _ Hall).
      rewrite (index_first _ Hne). reflexivity.
Qed.

(** The test of the change event.  When the value found after the update
    is exactly one character longer than the value read at dispatch and its
    character at the previous caret offset equals the character of the
    pattern at that offset, the caret is set by the lookup to the left from
    the previous offset; in every other case the caret moves to the first
    unfilled position. *)
Theorem change_caret (options : Options) (engine : Engine.t Callback)
  (event : Event.t) (dispatched updated : Target.t) :
  createTextMask options = Ok engine ->
  Event.target event = Some dispatched ->
  Event.type event = "change" ->
  let validPositions := get_validPositions options in
  let pattern := get_pattern options in
  let previousSelection := Target.selectionStart dispatched in
  let previousValue := Target.value dispatched in
  let value := Target.value updated in
  let effects := Engine.onChange engine event updated in
  let backspace :=
    JS.length value = JS.length previousValue + 1
    /\ JS.charAt value previousSelection = JS.charAt pattern previousSelection in
  (backspace ->
   (exists m, In m validPositions /\ effects = caretMove event m)
   /\ (StronglySorted Z.lt validPositions ->
       (exists v, In v validPositions /\ previousSelection < v) ->
       (exists v, In v validPositions /\ v <= previousSelection) ->
       exists m, nearestAtOrBelow validPositions previousSelection m
                 /\ effects = caretMove event m))
  /\ (~ backspace ->
      effects
      = caretMove event
          (firstUnfilledPosition value pattern (get_placeholder options)
             (get_maskDefinitions options))).
Proof.
  intros Hok Htarget Htype validPositions pattern previousSelection
    previousValue value effects backspace.
  apply createTextMask_Ok in Hok.
  destruct Hok as (_ & _ & Hne & _ & ->).
  subst effects. cbn [operations Engine.onChange].
  rewrite (manage_target _ _ _ _ _ _ _ Htarget), Htype, deferred_change.
  fold validPositions pattern previousSelection previousValue value in Hne |- *.
  unfold caretMove.
  assert (Htest :
            (JS.length value =? JS.length previousValue + 1)
            && (JS.charAt value previousSelection
                =? JS.charAt pattern previousSelection)%string = true
            <-> backspace).
  { unfold backspace.
    rewrite andb_true_iff, Z.eqb_eq, String.eqb_eq. tauto. }
  split; intros Hb.
  - apply Htest in Hb. rewrite Hb. cbv zeta. split.
    + destruct (nearestValidPosition_defined validPositions
                  previousSelection left Hne) as (m & -> & Hm).
      exists m. split; [exact Hm|reflexivity].
    + intros Hsorted Hbeyond Hbefore.
      destruct (nearestValidPosition_left_nearest _ _ Hsorted Hbeyond
                  Hbefore) as (m & -> & Hm).
      exists m. split; [exact Hm|reflexivity].
  - destruct ((JS.length value =? JS.length previousValue + 1)
              && (JS.charAt value previousSelection
                  =? JS.charAt pattern previousSelection)%string) eqn:Hc.
    + exfalso. apply Hb, Htest. reflexivity.
    + reflexivity.
Qed.

(** *** [format] and [normalize] *)

Lemma normalize_outcome pattern placeholder maskDefinitions guide stripMask
  allowEmpty (onChange onCompletePattern : option Callback) strippedPattern
  updatedValue previousValue :
  let outcome :=
    normalize pattern placeholder maskDefinitions guide stripMask allowEmpty
      onChange onCompletePattern strippedPattern updatedValue previousValue in
  let newValue := fst outcome in
  let formattedValue :=
    if stripMask
    then applyMask newValue pattern placeholder guide allowEmpty maskDefinitions
    else newValue in
  let changed := hasValueChanged newValue previousValue in
  directCalls (snd outcome)
  = match onChange with
    | Some callback => if changed then [Call callback newValue] else []
    | None => []
    end
  /\ deferredCalls (snd outcome)
     = match onCompletePattern with
       | Some callback =>
           if isPatternComplete formattedValue pattern maskDefinitions
              && changed
           then [SetTimeout callback newValue 10]
           else []
       | None => []
       end
  /\ snd outcome = (directCalls (snd outcome) ++ deferredCalls (snd outcome))%list.
Proof.
  cbv zeta. unfold normalize. cbn [fst snd].
  rewrite format_calledFromNormalize.
  set (transformed := applyTransform _ _ _ _).
  set (formatted := applyMask transformed _ _ _ _ _).
  set (newValue := if stripMask then transformed else formatted).
  assert (Hformatted :
            (if stripMask
             then applyMask newValue pattern placeholder guide allowEmpty
                    maskDefinitions
             else newValue) = formatted).
  { subst newValue. destruct stripMask; reflexivity. }
  rewrite Hformatted.
  unfold directCalls, deferredCalls.
  destruct onChange as [c1|], onCompletePattern as [c2|];
    destruct (hasValueChanged newValue previousValue);
    destruct (isPatternComplete formatted pattern maskDefinitions);
    repeat split.
Qed.

(** C4 (amended): [normalize] calls a configured [onChange], once and with
    the new stored value, exactly when that value differs from
    [previousValue] and is not the empty string replacing an undefined
    previous value; it makes no other direct call. *)
Theorem onChange_when_changed (options : Options) (engine : Engine.t Callback)
  (callback : Callback) (editedValue : string) (previousValue : option string) :
  createTextMask options = Ok engine ->
  Options.onChange options = Some callback ->
  let outcome := Engine.normalize engine editedValue previousValue in
  let newValue := fst outcome in
  let changed :=
    Some newValue <> previousValue
    /\ (newValue <> "" \/ previousValue <> None) in
  (changed -> directCalls (snd outcome) = [Call callback newValue])
  /\ (~ changed -> directCalls (snd outcome) = [])
  /\ (In (Call callback newValue) (snd outcome) <-> changed).
Proof.
  intros Hok Hcb outcome newValue changed.
  apply createTextMask_Ok in Hok.
  destruct Hok as (_ & _ & _ & _ & ->).
  subst outcome newValue. cbn [operations Engine.normalize] in *.
  match goal with
  | |- context [normalize ?p ?ph ?d ?g ?s ?a ?oc ?ocp ?sp ?u ?pv] =>
      pose proof (normalize_outcome p ph d g s a oc ocp sp u pv)
        as (Hdirect & Hdeferred & Happ);
      set (outcome := normalize p ph d g s a oc ocp sp u pv) in *
  end.
  rewrite Hcb in Hdirect.
  pose proof (hasValueChanged_spec (fst outcome) previousValue) as Hspec.
  fold changed in Hspec.
  assert (Hin : In (Call callback (fst outcome)) (snd outcome)
                <-> In (Call callback (fst outcome)) (directCalls (snd outcome))).
  { unfold directCalls. rewrite filter_In. simpl. tauto. }
  destruct (hasValueChanged (fst outcome) previousValue).
  - assert (Hc : changed) by now apply Hspec.
    split; [auto|]. split; [tauto|].
    rewrite Hin, Hdirect. split; [auto|]. intros _. now left.
  - assert (Hc : ~ changed) by (intro Hc; apply Hspec in Hc; discriminate).
    split; [tauto|]. split; [auto|].
    rewrite Hin, Hdirect. split; [intros []|tauto].
Qed.

(** C5: when a call of [normalize] changes the stored value and yields a
    formatted value with every slot filled, a configured
    [onCompletePattern] is scheduled exactly once, with the new stored
    value and a delay, after any direct call; it is not scheduled when
    the value did not change or a slot is unfilled.  The helpers are taken
    to find the pattern incomplete as long as nothing has been entered. *)
Theorem onCompletePattern_when_complete (options : Options)
  (engine : Engine.t Callback) (callback : Callback) (editedValue : string)
  (previousValue : option string) :
  createTextMask options = Ok engine ->
  Options.onCompletePattern options = Some callback ->
  let pattern := get_pattern options in
  let placeholder := get_placeholder options in
  let maskDefinitions := get_maskDefinitions options in
  let guide := get_guide options in
  let allowEmpty := get_allowEmpty options in
  isPatternComplete "" pattern maskDefinitions = false ->
  isPatternComplete
    (applyMask "" pattern placeholder guide allowEmpty maskDefinitions)
    pattern maskDefinitions = false ->
  let outcome := Engine.normalize engine editedValue previousValue in
  let newValue := fst outcome in
  let formattedValue :=
    if get_stripMask options
    then applyMask newValue pattern placeholder guide allowEmpty maskDefinitions
    else newValue in
  let complete :=
    isPatternComplete formattedValue pattern maskDefinitions = true in
  (Some newValue <> previousValue /\ complete ->
   deferredCalls (snd outcome) = [SetTimeout callback newValue 10]
   /\ snd outcome
      = (directCalls (snd outcome) ++ [SetTimeout callback newValue 10])%list)
  /\ (Some newValue = previousValue \/ ~ complete ->
      deferredCalls (snd outcome) = []).
Proof.
  intros Hok Hcb pattern placeholder maskDefinitions guide allowEmpty
    Hempty Hskeleton outcome newValue formattedValue complete.
  apply createTextMask_Ok in Hok.
  destruct Hok as (_ & _ & _ & _ & ->).
  subst outcome newValue formattedValue complete.
  cbn [operations Engine.normalize] in *.
  match goal with
  | |- context [normalize ?p ?ph ?d ?g ?s ?a ?oc ?ocp ?sp ?u ?pv] =>
      pose proof (normalize_outcome p ph d g s a oc ocp sp u pv)
        as (Hdirect & Hdeferred & Happ);
      set (outcome := normalize p ph d g s a oc ocp sp u pv) in *
  end.
  rewrite Hcb in Hdeferred.
  fold pattern placeholder maskDefinitions guide allowEmpty in Hdeferred |- *.
  pose proof (hasValueChanged_spec (fst outcome) previousValue) as Hspec.
  set (formattedValue :=
         if get_stripMask options
         then applyMask (fst outcome) pattern placeholder guide allowEmpty
                maskDefinitions
         else fst outcome) in *.
  split.
  - intros [Hdiff Hcomplete].
    assert (Hchanged : hasValueChanged (fst outcome) previousValue = true).
    { apply Hspec. split; [exact Hdiff|].
      destruct (String.eqb_spec (fst outcome) "") as [Hnil|Hnn]; [|now left].
      exfalso. subst formattedValue. rewrite Hnil in Hcomplete.
      destruct (get_stripMask options); congruence. }
    rewrite Hcomplete, Hchanged in Hdeferred. cbn [andb] in Hdeferred.
    split; [exact Hdeferred|]. rewrite <- Hdeferred. exact Happ.
  - intros [Hsame|Hincomplete].
    + assert (Hchanged : hasValueChanged (fst outcome) previousValue = false).
      { destruct (hasValueChanged (fst outcome) previousValue); [|reflexivity].
        destruct Hspec as [Hspec _]. destruct (Hspec eq_refl). congruence. }
      rewrite Hchanged, andb_false_r in Hdeferred. exact Hdeferred.
    + destruct (isPatternComplete formattedValue pattern maskDefinitions);
        [congruence|exact Hdeferred].
Qed.

(** C10: when [stripMask] is off, [format] returns every non-empty stored
    value as it is, without applying the mask, and returns the mask applied
    to the empty string for every falsy stored value. *)
Theorem format_unstripped (options : Options) (engine : Engine.t Callback) :
  createTextMask options = Ok engine ->
  get_stripMask options = false ->
  (forall storeValue, storeValue <> "" ->
      Engine.format engine (Some storeValue) = storeValue)
  /\ (forall storeValue, JS.not storeValue = true ->
         Engine.format engine storeValue
         = applyMask "" (get_pattern options) (get_placeholder options)
             (get_guide options) (get_allowEmpty options)
             (get_maskDefinitions options)).
Proof.
  intros Hok Hstrip. apply createTextMask_Ok in Hok.
  destruct Hok as (_ & _ & _ & _ & ->).
  cbn [operations Engine.format]. unfold format. rewrite Hstrip.
  split.
  - intros storeValue Hne. simpl.
    destruct (String.eqb_spec storeValue ""); [contradiction|reflexivity].
  - intros storeValue Hfalsy. rewrite Hfalsy. reflexivity.
Qed.


Lemma format_stripped pattern placeholder maskDefinitions guide allowEmpty
  (storeValue : option string) :
  format pattern placeholder maskDefinitions guide true allowEmpty
    storeValue false
  = applyMask (withDefault "" storeValue) pattern placeholder guide
      allowEmpty maskDefinitions.
Proof.
  unfold format. destruct storeValue as [s|]; simpl; [|reflexivity].
  destruct (String.eqb_spec s "") as [->|_]; reflexivity.
Qed.

(** Without [stripMask], [format] returns its own results unchanged. *)
Lemma format_twice_unstripped pattern placeholder maskDefinitions guide
  allowEmpty (storeValue : option string) :
  let format :=
    format pattern placeholder maskDefinitions guide false allowEmpty in
  format (Some (format storeValue false)) false = format storeValue false.
Proof.
  cbv zeta.
  assert (Hformat : forall value,
             format pattern placeholder maskDefinitions guide false
               allowEmpty value false
             = if JS.not value
               then applyMask "" pattern placeholder guide allowEmpty
                      maskDefinitions
               else withDefault "" value) by reflexivity.
  rewrite (Hformat storeValue).
  destruct (JS.not storeValue) eqn:Hfalsy.
  - rewrite Hformat. unfold JS.not.
    destruct (String.eqb_spec
                (applyMask "" pattern placeholder guide allowEmpty
                   maskDefinitions) ""); reflexivity.
  - destruct storeValue as [s|]; [|discriminate]. simpl in Hfalsy |- *.
    rewrite Hformat. unfold JS.not. rewrite Hfalsy. reflexivity.
Qed.

End Properties.

(** ** Formatting twice, over the reference helpers *)

Section FormatTwice.

Import SpecUtils.

Variable table : MaskDefinitions.
Variable placeholder : ascii.
Variable guide : bool.

Let ph : string := String placeholder EmptyString.

Lemma dropUnmatched_head (rule : Rule) (raw : string) (c : ascii) (rest : string) :
  dropUnmatched rule raw = String c rest -> matches rule c = true.
Proof.
  induction raw as [|r raw IH]; simpl; [discriminate|].
  destruct (matches rule r) eqn:Hr; [|exact IH].
  intros H. injection H as <- _. exact Hr.
Qed.

Lemma dropUnmatched_accepts (rule : Rule) (c : ascii) (rest : string) :
  matches rule c = true -> dropUnmatched rule (String c rest) = String c rest.
Proof. intros H. simpl. now rewrite H. Qed.

(** Nothing of the skeleton of a pattern passes a rule that rejects the
    placeholder and the literals of the pattern. *)
Lemma dropUnmatched_skeleton (rule : Rule) (pattern : string) :
  matches rule placeholder = false ->
  (forall literal, In literal (chars pattern) ->
     lookup literal table = None -> matches rule literal = false) ->
  dropUnmatched rule (walk ph true table pattern EmptyString) = EmptyString.
Proof.
  intros Hph. induction pattern as [|p pattern IH]; intros Hlit; [reflexivity|].
  assert (Htail : forall literal, In literal (chars pattern) ->
                    lookup literal table = None -> matches rule literal = false).
  { intros l Hl. apply Hlit. now right. }
  cbn [walk]. destruct (lookup p table) as [rule'|] eqn:Hp.
  - cbn [dropUnmatched]. unfold ph at 1. cbn [append dropUnmatched].
    rewrite Hph. now apply IH.
  - cbn [dropUnmatched]. rewrite (Hlit p (or_introl eq_refl) Hp).
    now apply IH.
Qed.

Lemma settled_tail (p : ascii) (pattern : string) :
  settled table placeholder (String p pattern) ->
  settled table placeholder pattern.
Proof.
  intros H slot rule Hslot Hrule.
  destruct (H slot rule (or_intror Hslot) Hrule) as (Hs & Hp & Hl).
  split; [exact Hs|]. split; [exact Hp|].
  intros l Hin. apply Hl. now right.
Qed.

(** A formatted value is formatted to itself by the walk. *)
Lemma walk_fixed (pattern : string) :
  settled table placeholder pattern ->
  forall raw,
    walk ph guide table pattern (walk ph guide table pattern raw)
    = walk ph guide table pattern raw.
Proof.
  induction pattern as [|p pattern IH]; intros Hsettled raw; [reflexivity|].
  specialize (IH (settled_tail _ _ Hsettled)).
  cbn [walk]. destruct (lookup p table) as [rule|] eqn:Hp.
  - destruct (Hsettled p rule (or_introl eq_refl) Hp) as (Hs & Hph & Hlit).
    destruct (dropUnmatched rule raw) as [|c rest] eqn:Hdrop.
    + destruct guide eqn:Hg; [|reflexivity].
      unfold ph at 1. cbn [append dropUnmatched]. rewrite Hph.
      rewrite dropUnmatched_skeleton; auto.
      intros l Hl. apply Hlit. now right.
    + apply dropUnmatched_head in Hdrop.
      destruct (Hs c Hdrop) as (Hacc & Hfix).
      rewrite (dropUnmatched_accepts _ _ _ Hacc), Hfix, IH.
      reflexivity.
  - destruct raw as [|r raw].
    + destruct guide eqn:Hg; [|reflexivity].
      rewrite Ascii.eqb_refl, IH. reflexivity.
    + rewrite Ascii.eqb_refl, IH. reflexivity.
Qed.

Lemma allPlaceholders_nonempty (value : string) :
  allPlaceholders ph value = false -> value <> EmptyString.
Proof. intros H ->. discriminate. Qed.

End FormatTwice.

Section FormatTwiceReference.

Import SpecUtils.

Variable table : MaskDefinitions.
Variable placeholder : ascii.

Let ph : string := String placeholder EmptyString.

(** A formatted value made of placeholders only is the skeleton. *)
Lemma walk_allPlaceholders (pattern : string) :
  settled table placeholder pattern ->
  forall raw,
    allPlaceholders ph (walk ph true table pattern raw) = true ->
    walk ph true table pattern raw = walk ph true table pattern EmptyString.
Proof.
  induction pattern as [|p pattern IH]; intros Hsettled raw; [reflexivity|].
  specialize (IH (settled_tail _ _ _ _ Hsettled)).
  cbn [walk]. destruct (lookup p table) as [rule|] eqn:Hp.
  - destruct (Hsettled p rule (or_introl eq_refl) Hp) as (Hs & Hph & _).
    destruct (dropUnmatched rule raw) as [|c rest] eqn:Hdrop; [reflexivity|].
    apply dropUnmatched_head in Hdrop. destruct (Hs c Hdrop) as (Hacc & _).
    cbn [allPlaceholders]. intros Hall. apply andb_true_iff in Hall.
    destruct Hall as [Hc _]. apply String.eqb_eq in Hc.
    injection Hc as Hc. congruence.
  - destruct raw as [|r raw]; [reflexivity|].
    cbn [allPlaceholders]. intros Hall. apply andb_true_iff in Hall.
    destruct Hall as [_ Hall]. now rewrite (IH _ Hall).
Qed.

(** Over a settled table, the mask applied to a formatted value returns
    it, as long as the skeleton is not shown without the guide. *)
Lemma applyMask_twice (pattern : string) (guide allowEmpty : bool) :
  settled table placeholder pattern ->
  guide = true \/ allowEmpty = false ->
  forall raw,
    applyMask (applyMask raw pattern ph guide allowEmpty table)
      pattern ph guide allowEmpty table
    = applyMask raw pattern ph guide allowEmpty table.
Proof.
  intros Hsettled Hmode raw. unfold applyMask.
  destruct allowEmpty; cbn [andb].
  - destruct Hmode as [->|Hmode]; [|discriminate].
    set (skeleton := walk ph true table pattern EmptyString).
    assert (Hskeleton :
              (if allPlaceholders ph skeleton then skeleton
               else if (skeleton =? "")%string then ""
                    else walk ph true table pattern skeleton) = skeleton).
    { destruct (allPlaceholders ph skeleton); [reflexivity|].
      destruct (String.eqb_spec skeleton "") as [Heq|_]; [now rewrite Heq|].
      apply walk_fixed. exact Hsettled. }
    destruct (allPlaceholders ph raw) eqn:Hraw; [exact Hskeleton|].
    destruct (String.eqb_spec raw "") as [->|_]; [discriminate|].
    destruct (allPlaceholders ph (walk ph true table pattern raw)) eqn:Hall.
    + symmetry. now apply walk_allPlaceholders.
    + destruct (String.eqb_spec (walk ph true table pattern raw) "")
        as [Heq|_]; [now rewrite Heq|].
      apply walk_fixed. exact Hsettled.
  - destruct (String.eqb_spec raw "") as [->|_]; [reflexivity|].
    destruct (String.eqb_spec (walk ph guide table pattern raw) "")
      as [Heq|_]; [now rewrite Heq|].
    apply walk_fixed. exact Hsettled.
Qed.

(** A placeholder that matches no key of the table is rejected by every
    rule of the table. *)
Lemma firstMatchingKey_None :
  firstMatchingKey placeholder table = None ->
  forall slot rule, lookup slot table = Some rule ->
    matches rule placeholder = false.
Proof.
  induction table as [|[key rule'] table' IH]; simpl; [discriminate|].
  destruct (matches rule' placeholder) eqn:Hm; [discriminate|].
  intros Hnone slot rule.
  destruct (Ascii.eqb key slot); [|now apply IH].
  intros H. injection H as <-. exact Hm.
Qed.

Lemma separated_settled (pattern : string) :
  separated table pattern ->
  firstMatchingKey placeholder table = None ->
  settled table placeholder pattern.
Proof.
  intros Hsep Hnone slot rule Hslot Hrule.
  destruct (Hsep slot rule Hslot Hrule) as (Hs & Hl).
  split; [exact Hs|]. split; [|exact Hl].
  now apply firstMatchingKey_None with slot.
Qed.

End FormatTwiceReference.

#[local] Existing Instance SpecUtils.imports.

Lemma length_one_char (s : string) :
  String.length s = 1%nat -> exists c, s = String c EmptyString.
Proof.
  destruct s as [|c [|d s]]; simpl; try discriminate. eauto.
Qed.

(** C9 (amended): over the reference helpers, formatting a formatted value
    returns it, for every stored value, when [stripMask] is off; when
    [stripMask] is on, it does so provided that the rule of every slot of
    the pattern rejects the literals of the pattern and maps accepted
    characters to accepted characters that it leaves unchanged, and that
    [guide] is on or [allowEmpty] off. *)
Theorem format_idempotent_when {Callback : Type}
  (options : Options.t SpecUtils.MaskDefinitions Callback)
  (engine : Engine.t Callback) :
  createTextMask options = Ok engine ->
  get_stripMask options = false
  \/ (SpecUtils.separated (get_maskDefinitions options) (get_pattern options)
      /\ (get_guide options = true \/ get_allowEmpty options = false)) ->
  forall storeValue,
    Engine.format engine (Some (Engine.format engine storeValue))
    = Engine.format engine storeValue.
Proof.
  intros Hok Hcases storeValue. apply createTextMask_Ok in Hok.
  destruct Hok as (_ & Hlength & _ & Hmatch & ->).
  cbn [operations Engine.format].
  destruct Hcases as [Hstrip|(Hsep & Hmode)].
  - rewrite Hstrip. apply format_twice_unstripped.
  - destruct (get_stripMask options); [|apply format_twice_unstripped].
    rewrite !format_stripped. cbn [withDefault].
    apply length_one_char in Hlength. destruct Hlength as [c Hc].
    rewrite Hc in Hmatch |- *.
    apply (applyMask_twice (get_maskDefinitions options) c); [|exact Hmode].
    apply separated_settled; [exact Hsep|exact Hmatch].
Qed.

(** ** The engine on concrete inputs *)

Section Concrete.

Import Examples.

Let table : SpecUtils.MaskDefinitions := SpecUtils.defaultMaskDefinitions.

Lemma separated_default_dashes :
  SpecUtils.separated SpecUtils.defaultMaskDefinitions "99-99".
Proof.
  intros slot rule Hslot Hrule.
  assert (Hdigit : rule = {| SpecUtils.matches := SpecUtils.isDigit;
                             SpecUtils.transform := None |}).
  { cbn in Hslot.
    destruct Hslot as [<-|[<-|[<-|[<-|[<-|[]]]]]]; cbn in Hrule; congruence. }
  subst rule. split.
  - intros c Hc. split; [exact Hc|reflexivity].
  - intros literal Hliteral Hnone. cbn in Hliteral.
    destruct Hliteral as [<-|[<-|[<-|[<-|[<-|[]]]]]]; cbn in Hnone;
      try discriminate; reflexivity.
Qed.

(** [normalize] on the pattern [99]: the second digit typed after ["1"]. *)
Lemma normalize_pipeline_witness :
  createTextMask (options "99" true true) = Ok (engine "99" true true)
  /\ fst (Engine.normalize (engine "99" true true) "12" (Some "1")) = "12".
Proof.
  split; [reflexivity|].
  exact (normalize_pipeline (options "99" true true) (engine "99" true true)
           "12" (Some "1") eq_refl).
Defined.

(** A pattern without slot has no valid caret position: construction
    throws. *)
Lemma createTextMask_throws_iff_witness :
  SpecUtils.validCaretPositions "" table = []
  /\ exists message, createTextMask (options "--" true true) = Throw message.
Proof.
  split; [reflexivity|].
  assert (Hempty : validCaretPositions ""
                     (get_maskDefinitions (options "--" true true)) = [])
    by reflexivity.
  apply (createTextMask_throws_iff (options "--" true true) Hempty).
  right. right. left. reflexivity.
Defined.

(** C3: ArrowLeft pressed with the collapsed caret at the end of ["(123)"],
    offset 5, which the default action moves to 4.  The valid positions of
    [(999)] are 1, 2 and 3 and the nearest one strictly less than the caret
    offset is 3, but no valid position lies beyond the caret: the index found
    by the scan is undefined, the index before it is not a number, and the
    handler sets the caret to the first valid position, 1.  The rule of
    the claim fails here, for the offset at dispatch and for the offset
    after the update. *)
Theorem arrowLeft_jumps_to_first_valid_position :
  let dispatched := target "(123)" 5 5 in
  let updated := target "(123)" 4 4 in
  let validPositions := get_validPositions (options "(999)" true true) in
  let effects :=
    Engine.onKeyDown (engine "(999)" true true)
      (event "keydown" "ArrowLeft" "(123)" 5 5) updated in
  validPositions = [1; 2; 3]
  /\ effects = [Persist; SetSelectionRange (Some 1) (Some 1)]
  /\ nearestBelow validPositions (Target.selectionStart dispatched) 3
  /\ nearestBelow validPositions (Target.selectionStart updated) 3
  /\ ~ arrowLeftStrict validPositions (Target.selectionStart dispatched) effects
  /\ ~ arrowLeftStrict validPositions (Target.selectionStart updated) effects.
Proof.
  assert (Hbelow : forall offset, 3 < offset -> nearestBelow [1; 2; 3] offset 3).
  { intros offset Hoffset. split; [cbn; auto|]. split; [exact Hoffset|].
    intros v [<-|[<-|[<-|[]]]] _; lia. }
  assert (Hfails : forall offset, 3 < offset ->
             ~ arrowLeftStrict [1; 2; 3] offset
                 [Persist; SetSelectionRange (Some 1) (Some 1)]).
  { intros offset Hoffset [Hnearest _].
    specialize (Hnearest 3 (Hbelow offset Hoffset)).
    unfold movesCaretTo in Hnearest. cbn [In] in Hnearest.
    destruct Hnearest as [H|[H|[]]]; discriminate. }
  cbv zeta. split; [reflexivity|]. split; [reflexivity|].
  split; [apply (Hbelow 5); reflexivity|].
  split; [apply (Hbelow 4); reflexivity|].
  split; [apply (Hfails 5); reflexivity|apply (Hfails 4); reflexivity].
Qed.

(** ArrowRight at offset 0 of [(999)]: the caret moves to 1. *)
Lemma keydown_arrows_witness :
  let event := event "keydown" "ArrowRight" "(___)" 0 0 in
  exists m,
    nearestAbove [1; 2; 3] 0 m
    /\ Engine.onKeyDown (engine "(999)" true true) event (target "(___)" 1 1)
       = caretMove event m.
Proof.
  intros event.
  assert (Hsorted : StronglySorted Z.lt
                      (get_validPositions (options "(999)" true true))).
  { repeat (constructor; try reflexivity). }
  assert (Hok : createTextMask (options "(999)" true true)
                = Ok (engine "(999)" true true)) by reflexivity.
  destruct (keydown_arrows (options "(999)" true true)
              (engine "(999)" true true) event (target "(___)" 0 0)
              (target "(___)" 1 1) Hok Hsorted eq_refl eq_refl)
    as [Hright _].
  destruct (Hright eq_refl) as [Hnearest _].
  apply Hnearest. exists 1. split; [now left|reflexivity].
Defined.

(** An empty edit of a field without previous value: the stored value
    becomes [""], which differs from [undefined], and [onChange] is not
    called. *)
Lemma onChange_not_called_on_first_empty :
  ~ onChangeWhenDifferent "onChange" None
      (Engine.normalize (engine "99" true true) "" None).
Proof.
  intros [_ Hcalled].
  assert (Hin : In (Call "onChange" "") (@nil (CallbackEffect Callback))).
  { apply Hcalled. discriminate. }
  destruct Hin.
Qed.

Lemma onChange_when_changed_witness :
  directCalls (snd (Engine.normalize (engine "99" true true) "12" (Some "1")))
  = [Call "onChange" "12"].
Proof.
  assert (Hok : createTextMask (options "99" true true)
                = Ok (engine "99" true true)) by reflexivity.
  destruct (onChange_when_changed (options "99" true true)
              (engine "99" true true) "onChange" "12" (Some "1")
              Hok eq_refl) as [Hcalled _].
  apply Hcalled. split; [discriminate|left; discriminate].
Defined.

Lemma onCompletePattern_when_complete_witness :
  SpecUtils.isPatternComplete "" "99" table = false
  /\ deferredCalls
       (snd (Engine.normalize (engine "99" true true) "12" (Some "1")))
     = [SetTimeout "onCompletePattern" "12" 10].
Proof.
  split; [reflexivity|].
  assert (Hok : createTextMask (options "99" true true)
                = Ok (engine "99" true true)) by reflexivity.
  assert (Hempty : isPatternComplete "" (get_pattern (options "99" true true))
                     (get_maskDefinitions (options "99" true true)) = false)
    by reflexivity.
  assert (Hskeleton :
            isPatternComplete
              (applyMask "" (get_pattern (options "99" true true))
                 (get_placeholder (options "99" true true))
                 (get_guide (options "99" true true))
                 (get_allowEmpty (options "99" true true))
                 (get_maskDefinitions (options "99" true true)))
              (get_pattern (options "99" true true))
              (get_maskDefinitions (options "99" true true)) = false)
    by reflexivity.
  destruct (onCompletePattern_when_complete (options "99" true true)
              (engine "99" true true) "onCompletePattern" "12" (Some "1")
              Hok eq_refl Hempty Hskeleton) as [Hscheduled _].
  apply Hscheduled. split; [discriminate|reflexivity].
Defined.

(** C6: backspace over the digit at offset 3 of ["12-99"]: the host holds
    ["12-9"] with the caret at 3, then ["12-9_"], one character longer.
    The pattern [99-99] has no literal at offset 3 but the slot marker [9],
    which happens to equal the digit found there: the handler takes the
    edit for a backspace over a character of the pattern and sets the caret
    to 3 instead of the first unfilled position, 4.  With any other digit
    in that slot (["12-5"], then ["12-5_"]) the caret does move to 4.  The
    rule of the claim fails at the first input. *)
Theorem change_over_slot_marker :
  let engine := engine "99-99" true true in
  Engine.onChange engine (event "change" "" "12-9" 3 3) (target "12-9_" 3 3)
  = [Persist; SetSelectionRange (Some 3) (Some 3)]
  /\ SpecUtils.isSlot "9" table = true
  /\ SpecUtils.firstUnfilledPosition "12-9_" "99-99" "_" table = 4
  /\ Engine.onChange engine (event "change" "" "12-5" 3 3) (target "12-5_" 3 3)
     = [Persist; SetSelectionRange (Some 4) (Some 4)]
  /\ ~ changeOverLiteral (get_validPositions (options "99-99" true true))
         "99-99"
         (negb (SpecUtils.isSlot "9" table))
         (SpecUtils.firstUnfilledPosition "12-9_" "99-99" "_" table)
         "12-9" 3 "12-9_"
         (Engine.onChange engine
            (event "change" "" "12-9" 3 3) (target "12-9_" 3 3)).
Proof.
  cbv zeta. repeat (split; [reflexivity|]).
  intros [_ Hfirst].
  assert (Hin : movesCaretTo [Persist; SetSelectionRange (Some 3) (Some 3)] 4).
  { apply Hfirst. intros (_ & Hliteral & _). discriminate. }
  unfold movesCaretTo in Hin. cbn [In] in Hin.
  destruct Hin as [Hin|[Hin|[]]]; discriminate.
Qed.

(** Backspace over the literal of ["12-34"]: the host holds ["1234"] with
    the caret at 2, then ["12-34"]. *)
Lemma change_caret_witness :
  let event := event "change" "" "1234" 2 2 in
  exists m,
    nearestAtOrBelow [0; 1; 3; 4] 2 m
    /\ Engine.onChange (engine "99-99" true true) event (target "12-34" 2 2)
       = caretMove event m.
Proof.
  intros event.
  assert (Hok : createTextMask (options "99-99" true true)
                = Ok (engine "99-99" true true)) by reflexivity.
  destruct (change_caret (options "99-99" true true)
              (engine "99-99" true true) event (target "1234" 2 2)
              (target "12-34" 2 2) Hok eq_refl eq_refl)
    as [Hbackspace _].
  destruct (Hbackspace (conj eq_refl eq_refl)) as [_ Hnearest].
  apply Hnearest.
  - repeat (constructor; try reflexivity).
  - exists 3. split; [cbn; auto|reflexivity].
  - exists 1. split; [cbn; auto|discriminate].
Defined.

Lemma caret_lookup_defined_witness :
  exists caretPos,
    In caretPos [1; 2; 3]
    /\ goToNearestValidPosition [1; 2; 3] (target "(123)" 5 5) 5 left
       = [SetSelectionRange (Some caretPos) (Some caretPos)].
Proof.
  assert (Hok : createTextMask (options "(999)" true true)
                = Ok (engine "(999)" true true)) by reflexivity.
  destruct (caret_lookup_defined (options "(999)" true true)
              (engine "(999)" true true) Hok) as [Hlookup _].
  exact (Hlookup (target "(123)" 5 5) 5 left).
Defined.

Lemma handlers_caret_only_witness :
  Forall caretOnly
    (Engine.onClick (engine "(999)" true true)
       (event "click" "" "(12_)" 0 0) (target "(12_)" 0 0)).
Proof.
  assert (Hok : createTextMask (options "(999)" true true)
                = Ok (engine "(999)" true true)) by reflexivity.
  destruct (handlers_caret_only (options "(999)" true true)
              (engine "(999)" true true) (event "click" "" "(12_)" 0 0)
              (target "(12_)" 0 0) Hok) as (_ & _ & _ & Hclick).
  exact Hclick.
Defined.

(** ArrowLeft from the end of ["12-"]: the caret is at 2 once the update
    has settled, no valid position lies beyond it, and the caret jumps to
    the first valid position, 0, over the valid position 1. *)
Example arrowLeft_past_the_last_valid_position :
  get_validPositions (options "99-" true true) = [0; 1]
  /\ Engine.onKeyDown (engine "99-" true true)
       (event "keydown" "ArrowLeft" "12-" 3 3) (target "12-" 2 2)
     = [Persist; SetSelectionRange (Some 0) (Some 0)].
Proof. split; reflexivity. Qed.

(** The stored value ["1"] of a date field with a fixed century: its
    formatted value is ["1_/__/20__"], in which the literal [2] is a
    digit; formatting that value again gives ["12/0_/20__"]. *)
Lemma format_twice_differs :
  let engine := engine "99/99/2099" true true in
  createTextMask (options "99/99/2099" true true) = Ok engine
  /\ fst (Engine.normalize engine "1" None) = "1"
  /\ Engine.format engine (Some "1") = "1_/__/20__"
  /\ Engine.format engine (Some (Engine.format engine (Some "1")))
     = "12/0_/20__"
  /\ Engine.format engine (Some (Engine.format engine (Some "1")))
     <> Engine.format engine (Some "1").
Proof.
  repeat split. discriminate.
Qed.

Lemma format_idempotent_when_witness :
  let engine := engine "99-99" true true in
  Engine.format engine (Some (Engine.format engine (Some "123")))
  = Engine.format engine (Some "123").
Proof.
  intros engine.
  assert (Hok : createTextMask (options "99-99" true true) = Ok engine)
    by reflexivity.
  apply (format_idempotent_when (options "99-99" true true) engine Hok).
  right. split; [exact separated_default_dashes|left; reflexivity].
Defined.

Lemma format_unstripped_witness :
  Engine.format (engine "99-99" true false) (Some "12-3_") = "12-3_".
Proof.
  assert (Hok : createTextMask (options "99-99" true false)
                = Ok (engine "99-99" true false)) by reflexivity.
  destruct (format_unstripped (options "99-99" true false)
              (engine "99-99" true false) Hok eq_refl) as [Hidentity _].
  apply Hidentity. discriminate.
Defined.

End Concrete.

(** ** More on the caret lookup *)

Section CaretLookupMore.

Variable validPositions : list Z.

Lemma find_first (f : Z -> bool) (l : list Z) (j : nat) (e : Z) :
  nth_error l j = Some e -> f e = true ->
  (forall k e', (k < j)%nat -> nth_error l k = Some e' -> f e' = false) ->
  find f l = Some e.
Proof.
  revert j. induction l as [|x l IH]; intros j Hj He Hbefore.
  - destruct j; discriminate.
  - destruct j as [|j]; simpl in Hj |- *.
    + injection Hj as ->. now rewrite He.
    + rewrite (Hbefore 0%nat x ltac:(lia) eq_refl).
      apply (IH j); auto.
      intros k e' Hk Hk'. apply (Hbefore (S k)); [lia|exact Hk'].
Qed.

Lemma find_nothing (f : Z -> bool) (l : list Z) :
  (forall x, In x l -> f x = false) -> find f l = None.
Proof.
  induction l as [|x l IH]; intros Hall; [reflexivity|].
  simpl. rewrite (Hall x (or_introl eq_refl)).
  apply IH. intros y Hy. apply Hall. now right.
Qed.

(** X8: the lookup to the right, whose loop runs one iteration past the end
    of the array, sets the caret to the first element of [validPositions],
    in the order of the array, that is greater than [position], and to the
    last element of the array when there is none; the array need not be
    sorted. *)
Theorem goToNearestValidPosition_right_find (target : Target.t) (position : Z) :
  goToNearestValidPosition validPositions target position right
  = let caretPos :=
      match find (fun element => element >? position) validPositions with
      | Some element => Some element
      | None =>
          JS.index validPositions
            (Some (Z.of_nat (List.length validPositions) - 1))
      end in
    [SetSelectionRange caretPos caretPos].
Proof.
  unfold goToNearestValidPosition. cbv zeta. f_equal.
  assert (Hcaret :
            nearestValidPosition validPositions position right
            = match find (fun element => element >? position) validPositions with
              | Some element => Some element
              | None =>
                  JS.index validPositions
                    (Some (Z.of_nat (List.length validPositions) - 1))
              end).
  { unfold nearestValidPosition.
    pose proof (nearestIndexToTheRight_spec validPositions position) as H.
    destruct (nearestIndexToTheRightFrom _ _ _ _) as [found|].
    - destruct H as (j & e & -> & He & Hpe & Hbelow).
      rewrite JS_index_nat, He.
      rewrite (find_first _ _ j e He).
      + reflexivity.
      + apply Z.gtb_lt. lia.
      + intros k e' Hk Hk'. specialize (Hbelow k e' Hk Hk').
        destruct (Z.gtb_spec e' position); [lia|reflexivity].
    - rewrite find_nothing; [reflexivity|].
      intros x Hx. specialize (H x Hx).
      destruct (Z.gtb_spec x position); [lia|reflexivity]. }
  now rewrite Hcaret.
Qed.

(** Between two neighbours [a] and [b] of a sorted array, the scan finds
    [b] to the right and [a] to the left. *)
Lemma nearestValidPosition_between (i : nat) (a b position : Z) :
  StronglySorted Z.lt validPositions ->
  nth_error validPositions i = Some a ->
  nth_error validPositions (S i) = Some b ->
  a <= position < b ->
  nearestValidPosition validPositions position right = Some b
  /\ nearestValidPosition validPositions position left = Some a.
Proof.
  intros Hsorted Ha Hb Hrange. unfold nearestValidPosition.
  pose proof (nearestIndexToTheRight_spec validPositions position) as H.
  destruct (nearestIndexToTheRightFrom _ _ _ _) as [found|].
  2:{ apply nth_error_In in Hb. apply H in Hb. lia. }
  destruct H as (j & e & -> & He & Hpe & Hbelow).
  assert (Hj : j = S i).
  { destruct (Nat.lt_trichotomy j (S i)) as [Hlt|[Heq|Hgt]].
    - exfalso. destruct (Nat.eq_dec j i) as [->|Hne].
      + rewrite Ha in He. injection He as <-. lia.
      + pose proof (StronglySorted_nth_error _ Hsorted j i e a
                      ltac:(lia) He Ha). lia.
    - exact Heq.
    - exfalso. specialize (Hbelow (S i) b Hgt Hb). lia. }
  subst j. rewrite Hb in He. injection He as <-.
  split.
  - rewrite JS_index_nat, Hb. reflexivity.
  - unfold JS.pred, option_map.
    replace (Z.of_nat (S i) - 1) with (Z.of_nat i) by lia.
    rewrite JS_index_nat, Ha. reflexivity.
Qed.

End CaretLookupMore.

(** ** More on construction, [format] and [normalize] *)

Section PropertiesMore.

Context {MaskDefinitions Callback : Type}.
Context {imports : Imports MaskDefinitions}.

Let Options : Type := Options.t MaskDefinitions Callback.

(** The four messages start differently. *)
Lemma messages_distinct (pattern placeholder : string) (marker : ascii) :
  patternRequired <> placeholderLength
  /\ patternRequired <> patternNotValid pattern
  /\ patternRequired <> placeholderMatches placeholder marker
  /\ placeholderLength <> patternNotValid pattern
  /\ placeholderLength <> placeholderMatches placeholder marker
  /\ patternNotValid pattern <> placeholderMatches placeholder marker.
Proof.
  unfold patternRequired, placeholderLength, patternNotValid,
    placeholderMatches.
  cbn [append].
  repeat split; intro H; discriminate H.
Qed.

Lemma placeholder_check (placeholder : string) :
  JS.not (Some placeholder) || negb (JS.length placeholder =? 1) = true
  <-> String.length placeholder <> 1%nat.
Proof.
  rewrite orb_true_iff, negb_true_iff, Z.eqb_neq. unfold JS.length. split.
  - intros [H|H]; [|lia]. simpl in H. apply String.eqb_eq in H.
    subst placeholder. discriminate.
  - intros H. right. lia.
Qed.

Lemma append_cancel (prefix a b : string) :
  (prefix ++ a)%string = (prefix ++ b)%string -> a = b.
Proof.
  induction prefix as [|c prefix IH]; simpl; [auto|].
  intros H. injection H as H. auto.
Qed.

(** X1: the checks of the construction are made in a fixed order and the
    message of the error tells which one failed first: a missing or empty
    pattern, then a placeholder that is not one character long, then a
    pattern without valid caret position (the message quotes the pattern),
    then a placeholder that matches a slot (the message quotes the
    placeholder and the slot). *)
Theorem createTextMask_first_failure (options : Options) (message : string) :
  createTextMask options = Throw message ->
  let pattern := get_pattern options in
  let placeholder := get_placeholder options in
  let noPattern := JS.not (Options.pattern options) = true in
  let badPlaceholder := String.length placeholder <> 1%nat in
  let noPosition := get_validPositions options = [] in
  (message = patternRequired <-> noPattern)
  /\ (message = placeholderLength <-> ~ noPattern /\ badPlaceholder)
  /\ (message = patternNotValid pattern
      <-> ~ noPattern /\ ~ badPlaceholder /\ noPosition)
  /\ ((exists marker, message = placeholderMatches placeholder marker)
      <-> ~ noPattern /\ ~ badPlaceholder /\ ~ noPosition)
  /\ (forall marker,
         message = placeholderMatches placeholder marker ->
         charMatchTest placeholder (get_maskDefinitions options) = Some marker).
Proof.
  intros Hthrow pattern placeholder noPattern badPlaceholder noPosition.
  assert (Hcases :
            (noPattern /\ message = patternRequired)
            \/ (~ noPattern /\ badPlaceholder /\ message = placeholderLength)
            \/ (~ noPattern /\ ~ badPlaceholder /\ noPosition
                /\ message = patternNotValid pattern)
            \/ (~ noPattern /\ ~ badPlaceholder /\ ~ noPosition
                /\ exists found,
                     charMatchTest placeholder (get_maskDefinitions options)
                     = Some found
                     /\ message = placeholderMatches placeholder found)).
  { unfold createTextMask in Hthrow.
    fold pattern placeholder in Hthrow.
    pose proof (placeholder_check placeholder) as Hlen.
    fold badPlaceholder in Hlen.
    assert (Hnil : (Z.of_nat (List.length (get_validPositions options)) =? 0)
                   = true <-> noPosition).
    { unfold noPosition. rewrite Z.eqb_eq.
      destruct (get_validPositions options); simpl; split; intro H;
        try reflexivity; try lia; discriminate. }
    destruct (JS.not (Options.pattern options)) eqn:Hp.
    { injection Hthrow as <-. left. split; reflexivity. }
    assert (Hnp : ~ noPattern) by (unfold noPattern; discriminate).
    destruct (JS.not (Some placeholder) || negb (JS.length placeholder =? 1))
      eqn:Hl.
    { injection Hthrow as <-. right. left.
      split; [exact Hnp|]. split; [now apply Hlen|reflexivity]. }
    assert (Hnb : ~ badPlaceholder)
      by (intro Hb; apply Hlen in Hb; congruence).
    destruct (Z.of_nat (List.length (get_validPositions options)) =? 0) eqn:Hv.
    { injection Hthrow as <-. right. right. left.
      repeat (split; [assumption|]). split; [now apply Hnil|reflexivity]. }
    assert (Hnn : ~ noPosition)
      by (intro Hn; apply Hnil in Hn; congruence).
    destruct (charMatchTest placeholder (get_maskDefinitions options))
      as [found|] eqn:Hm; [|discriminate].
    injection Hthrow as <-. right. right. right.
    repeat (split; [assumption|]). exists found. split; reflexivity. }
  assert (Hmarker : forall marker,
             message = placeholderMatches placeholder marker ->
             ~ noPattern /\ ~ badPlaceholder /\ ~ noPosition
             /\ charMatchTest placeholder (get_maskDefinitions options)
                = Some marker).
  { intros marker Heq.
    destruct (messages_distinct pattern placeholder marker)
      as (_ & _ & H3 & _ & H5 & H6).
    destruct Hcases as [(_ & Hm)|[(_ & _ & Hm)|[(_ & _ & _ & Hm)|Hm]]];
      try congruence.
    destruct Hm as (Hnp & Hnb & Hnn & found & Hfound & Hm).
    repeat (split; [assumption|]).
    rewrite Hm in Heq. unfold placeholderMatches in Heq.
    do 4 apply append_cancel in Heq.
    cbn [append] in Heq. injection Heq as <-. exact Hfound. }
  destruct (messages_distinct pattern placeholder "000"%char)
    as (H1 & H2 & _ & H4 & _ & _).
  split; [|split; [|split; [|split]]].
  - split.
    + intros ->.
      destruct Hcases as [(H & _)|[(_ & _ & Hm)|[(_ & _ & _ & Hm)|Hm]]];
        try congruence; try exact H.
      destruct Hm as (_ & _ & _ & found & _ & Hm).
      destruct (messages_distinct pattern placeholder found)
        as (_ & _ & H3 & _). congruence.
    + intros Hn.
      destruct Hcases as [(_ & Hm)|[(H & _)|[(H & _)|(H & _)]]];
        [exact Hm|contradiction..].
  - split.
    + intros ->.
      destruct Hcases as [(_ & Hm)|[(Ha & Hb & _)|[(_ & _ & _ & Hm)|Hm]]];
        try congruence; try (split; assumption).
      destruct Hm as (_ & _ & _ & found & _ & Hm).
      destruct (messages_distinct pattern placeholder found)
        as (_ & _ & _ & _ & H5 & _). congruence.
    + intros (Hn & Hb).
      destruct Hcases as [(H & _)|[(_ & _ & Hm)|[(_ & H & _)|(_ & H & _)]]];
        [contradiction|exact Hm|contradiction..].
  - split.
    + intros Heq.
      destruct Hcases as [(_ & Hm)|[(_ & _ & Hm)|[(Ha & Hb & Hc & _)|Hm]]];
        try congruence; try (repeat split; assumption).
      destruct Hm as (_ & _ & _ & found & _ & Hm).
      destruct (messages_distinct pattern placeholder found)
        as (_ & _ & _ & _ & _ & H6). congruence.
    + intros (Hn & Hb & Hc).
      destruct Hcases
        as [(H & _)|[(_ & H & _)|[(_ & _ & _ & Hm)|(_ & _ & H & _)]]];
        [contradiction..|exact Hm|contradiction].
  - split.
    + intros [marker Heq]. destruct (Hmarker marker Heq) as (Ha & Hb & Hc & _).
      repeat split; assumption.
    + intros (Hn & Hb & Hc).
      destruct Hcases
        as [(H & _)|[(_ & H & _)|[(_ & _ & H & _)|(_ & _ & _ & Hm)]]];
        [contradiction..|].
      destruct Hm as (found & _ & Hm). eauto.
  - intros marker Heq. now destruct (Hmarker marker Heq) as (_ & _ & _ & H).
Qed.

(** X2: with [stripMask] on, [format] applies the mask to every stored
    value, an undefined one being formatted as the empty string. *)
Theorem format_stripped_applies_mask (options : Options)
  (engine : Engine.t Callback) :
  createTextMask options = Ok engine ->
  get_stripMask options = true ->
  forall storeValue,
    Engine.format engine storeValue
    = applyMask (withDefault "" storeValue) (get_pattern options)
        (get_placeholder options) (get_guide options)
        (get_allowEmpty options) (get_maskDefinitions options).
Proof.
  intros Hok Hstrip storeValue. apply createTextMask_Ok in Hok.
  destruct Hok as (_ & _ & _ & _ & ->).
  cbn [operations Engine.format]. rewrite Hstrip. apply format_stripped.
Qed.

(** X3: [format] shows the value that [normalize] stored as the formatted
    value that [normalize] computed, the one it tested for completeness;
    without [stripMask] this needs that formatted value not to be
    empty. *)
Theorem format_after_normalize (options : Options) (engine : Engine.t Callback)
  (editedValue : string) (previousValue : option string) :
  createTextMask options = Ok engine ->
  let pattern := get_pattern options in
  let placeholder := get_placeholder options in
  let maskDefinitions := get_maskDefinitions options in
  let guide := get_guide options in
  let allowEmpty := get_allowEmpty options in
  let stripped :=
    maskStrip
      (Some (inputReformat editedValue pattern placeholder guide allowEmpty
               maskDefinitions))
      pattern placeholder maskDefinitions in
  let transformed :=
    applyTransform stripped
      (if get_stripMask options then previousValue
       else Some (maskStrip previousValue pattern placeholder maskDefinitions))
      (get_strippedPattern options) maskDefinitions in
  let formattedValue :=
    applyMask transformed pattern placeholder guide allowEmpty
      maskDefinitions in
  get_stripMask options = true \/ formattedValue <> "" ->
  Engine.format engine
    (Some (fst (Engine.normalize engine editedValue previousValue)))
  = formattedValue.
Proof.
  intros Hok. apply createTextMask_Ok in Hok.
  destruct Hok as (_ & _ & _ & _ & ->).
  cbv zeta. cbn [operations Engine.format Engine.normalize].
  unfold normalize. cbn [fst]. rewrite format_calledFromNormalize.
  destruct (get_stripMask options).
  - intros _. rewrite format_stripped. reflexivity.
  - intros [Hstrip|Hne]; [discriminate|].
    unfold format, JS.not.
    match goal with
    | |- context [(?f =? "")%string] =>
        destruct (String.eqb_spec f ""); [contradiction|reflexivity]
    end.
Qed.

(** X4: [normalize] schedules [onCompletePattern] only together with the
    call of a configured [onChange], made first and with the same value:
    a completion is never reported without the change that caused it; and
    without callbacks [normalize] has no effect. *)
Theorem normalize_effects_shape (options : Options) (engine : Engine.t Callback)
  (editedValue : string) (previousValue : option string) :
  createTextMask options = Ok engine ->
  let outcome := Engine.normalize engine editedValue previousValue in
  let newValue := fst outcome in
  (forall callback argument delay,
      In (SetTimeout callback argument delay) (snd outcome) ->
      Options.onCompletePattern options = Some callback
      /\ argument = newValue /\ delay = 10
      /\ snd outcome
         = (match Options.onChange options with
            | Some changed => [Call changed newValue]
            | None => []
            end ++ [SetTimeout callback newValue 10])%list)
  /\ (Options.onChange options = None ->
      Options.onCompletePattern options = None ->
      snd outcome = []).
Proof.
  intros Hok outcome newValue. apply createTextMask_Ok in Hok.
  destruct Hok as (_ & _ & _ & _ & ->).
  subst outcome newValue. cbn [operations Engine.normalize].
  match goal with
  | |- context [normalize ?p ?ph ?d ?g ?s ?a ?oc ?ocp ?sp ?u ?pv] =>
      pose proof (normalize_outcome p ph d g s a oc ocp sp u pv)
        as (Hdirect & Hdeferred & Happ);
      set (outcome := normalize p ph d g s a oc ocp sp u pv) in *
  end.
  split.
  - intros callback argument delay Hin.
    assert (Hin' : In (SetTimeout callback argument delay)
                     (deferredCalls (snd outcome))).
    { unfold deferredCalls. apply filter_In. split; [exact Hin|reflexivity]. }
    rewrite Hdeferred in Hin'.
    destruct (Options.onCompletePattern options) as [scheduled|];
      [|destruct Hin'].
    match type of Hin' with
    | In _ (if ?complete && ?changed then _ else _) =>
        destruct complete; cbn [andb] in Hin', Hdeferred;
        [destruct changed eqn:Hchanged|]; cbn [In] in Hin';
        try contradiction
    end.
    destruct Hin' as [Heq|[]]. injection Heq as <- <- <-.
    repeat (split; [reflexivity|]).
    rewrite Happ, Hdirect, Hdeferred. reflexivity.
  - intros Hnone Hnone'. rewrite Happ, Hdirect, Hdeferred, Hnone, Hnone'.
    reflexivity.
Qed.

(** [indexOf] finds exactly the elements of the array. *)
Lemma indexOfFrom_found (a : list Z) (x from : Z) :
  0 <= from -> (JS.indexOfFrom a x from >=? 0) = true <-> In x a.
Proof.
  revert from. induction a as [|y a IH]; intros from Hfrom; simpl.
  - split; [discriminate|contradiction].
  - destruct (Z.eqb_spec y x) as [->|Hne].
    + split; [now left|]. intros _. apply Z.geb_le. exact Hfrom.
    + rewrite (IH (from + 1)) by lia. split; [now right|].
      intros [Heq|Hin]; [contradiction|exact Hin].
Qed.

(** X5: a click that leaves a collapsed selection on a valid position only
    prevents the default action and moves nothing; elsewhere it moves the
    caret to the first unfilled position; a click that leaves a range
    selected is left alone. *)
Theorem click_caret (options : Options) (engine : Engine.t Callback)
  (event : Event.t) (dispatched updated : Target.t) :
  createTextMask options = Ok engine ->
  Event.target event = Some dispatched ->
  Event.type event = "click" ->
  let effects := Engine.onClick engine event updated in
  let selectionStart := Target.selectionStart updated in
  let collapsed := selectionStart = Target.selectionEnd updated in
  (collapsed -> In selectionStart (get_validPositions options) ->
   effects = (persisted event ++ [PreventDefault])%list)
  /\ (collapsed -> ~ In selectionStart (get_validPositions options) ->
      effects
      = caretMove event
          (firstUnfilledPosition (Target.value updated) (get_pattern options)
             (get_placeholder options) (get_maskDefinitions options)))
  /\ (~ collapsed -> effects = persisted event).
Proof.
  intros Hok Htarget Htype effects selectionStart collapsed.
  apply createTextMask_Ok in Hok.
  destruct Hok as (_ & _ & _ & _ & ->).
  subst effects. cbn [operations Engine.onClick].
  rewrite (manage_target _ _ _ _ _ _ _ Htarget), Htype.
  unfold manageCaretPositionDeferred, caretMove, persisted,
    goToFirstUnfilledPosition.
  cbn [String.eqb Ascii.eqb Bool.eqb].
  fold selectionStart.
  pose proof (indexOfFrom_found (get_validPositions options) selectionStart 0
                ltac:(lia)) as Hfound.
  fold (JS.indexOf (get_validPositions options) selectionStart) in Hfound.
  unfold collapsed.
  destruct (Z.eqb_spec selectionStart (Target.selectionEnd updated))
    as [Heq|Hne].
  - destruct (JS.indexOf (get_validPositions options) selectionStart >=? 0).
    + split; [reflexivity|]. split; [|contradiction].
      intros _ Hnot. exfalso. apply Hnot, Hfound. reflexivity.
    + split; [|split; [reflexivity|contradiction]].
      intros _ Hin. apply Hfound in Hin. discriminate.
  - split; [contradiction|]. split; [contradiction|].
    intros _. apply app_nil_r.
Qed.

(** The four handlers of the returned object are one function. *)
Lemma handlers_are_manage (options : Options) (handler : Event.t -> Target.t -> list HostEffect) :
  In handler
    [Engine.onKeyDown (operations options); Engine.onChange (operations options);
     Engine.onFocus (operations options); Engine.onClick (operations options)] ->
  handler
  = manageCaretPosition (get_pattern options) (get_placeholder options)
      (get_maskDefinitions options) (get_validPositions options).
Proof.
  cbn [In]. intros [<-|[<-|[<-|[<-|[]]]]]; reflexivity.
Qed.

(** X6: delivered to any of the four handlers, an event without target has
    no effect, and an event of another type than change, focus, click and
    keydown, or a keydown of another key than ArrowLeft and ArrowRight, is
    persisted and nothing else: the caret is not touched. *)
Theorem ignored_events (options : Options) (engine : Engine.t Callback)
  (handler : Event.t -> Target.t -> list HostEffect)
  (event : Event.t) (updated : Target.t) :
  createTextMask options = Ok engine ->
  In handler [Engine.onKeyDown engine; Engine.onChange engine;
              Engine.onFocus engine; Engine.onClick engine] ->
  let effects := handler event updated in
  (Event.target event = None -> effects = [])
  /\ (Event.target event <> None ->
      (Event.type event <> "change" /\ Event.type event <> "focus"
       /\ Event.type event <> "click" /\ Event.type event <> "keydown")
      \/ (Event.type event = "keydown"
          /\ Event.key event <> "ArrowLeft" /\ Event.key event <> "ArrowRight") ->
      effects = persisted event).
Proof.
  intros Hok Hhandler effects. apply createTextMask_Ok in Hok.
  destruct Hok as (_ & _ & _ & _ & ->).
  apply handlers_are_manage in Hhandler. subst handler effects.
  unfold manageCaretPosition, persisted. split.
  - intros ->. reflexivity.
  - intros Htarget Hcase.
    destruct (Event.target event) as [dispatched|]; [|congruence].
    unfold manageCaretPositionDeferred.
    destruct Hcase as [(H1 & H2 & H3 & H4)|(Htype & H1 & H2)].
    + apply String.eqb_neq in H1, H2, H3, H4.
      rewrite H1, H2, H3, H4. apply app_nil_r.
    + rewrite Htype. cbn [String.eqb Ascii.eqb Bool.eqb].
      apply String.eqb_neq in H1, H2.
      rewrite H1, H2. apply app_nil_r.
Qed.

(** X7: whatever the event and whichever of the four handlers receives it,
    the handler persists it at most once, first, and then does at most one
    thing: prevent the default action or set one
    collapsed selection; it never does both and never moves the caret
    twice. *)
Theorem handler_single_action (options : Options) (engine : Engine.t Callback)
  (handler : Event.t -> Target.t -> list HostEffect)
  (event : Event.t) (updated : Target.t) :
  createTextMask options = Ok engine ->
  In handler [Engine.onKeyDown engine; Engine.onChange engine;
              Engine.onFocus engine; Engine.onClick engine] ->
  handler event updated = []
  \/ exists action,
       handler event updated = (persisted event ++ action)%list
       /\ singleAction action.
Proof.
  intros Hok Hhandler. apply createTextMask_Ok in Hok.
  destruct Hok as (_ & _ & _ & _ & ->).
  apply handlers_are_manage in Hhandler. subst handler.
  unfold manageCaretPosition, persisted.
  destruct (Event.target event) as [dispatched|]; [right|now left].
  eexists. split; [reflexivity|].
  unfold manageCaretPositionDeferred, goToFirstUnfilledPosition,
    goToNearestValidPosition, singleAction.
  repeat match goal with
         | |- context [if ?b then _ else _] => destruct b
         end;
    eauto.
Qed.

(** X9: over sorted valid positions with neighbours [a] and [b], ArrowRight
    pressed while the caret is at [a] or between them moves it to [b], and
    ArrowLeft, when the caret is at [a] or between them once the update has
    settled, moves it to [a]: the arrows step through the valid positions
    without skipping one. *)
Theorem arrows_between_neighbours (options : Options)
  (engine : Engine.t Callback) (event : Event.t)
  (dispatched updated : Target.t) (i : nat) (a b : Z) :
  createTextMask options = Ok engine ->
  StronglySorted Z.lt (get_validPositions options) ->
  nth_error (get_validPositions options) i = Some a ->
  nth_error (get_validPositions options) (S i) = Some b ->
  Event.target event = Some dispatched ->
  Event.type event = "keydown" ->
  let effects := Engine.onKeyDown engine event updated in
  (Event.key event = "ArrowRight" ->
   a <= Target.selectionStart dispatched < b ->
   effects = caretMove event b)
  /\ (Event.key event = "ArrowLeft" ->
      a <= Target.selectionStart updated < b ->
      effects = caretMove event a).
Proof.
  intros Hok Hsorted Ha Hb Htarget Htype effects.
  apply createTextMask_Ok in Hok.
  destruct Hok as (_ & _ & _ & _ & ->).
  subst effects. cbn [operations Engine.onKeyDown].
  rewrite (manage_target _ _ _ _ _ _ _ Htarget), Htype.
  unfold caretMove.
  split; intros Hkey Hrange; rewrite Hkey.
  - rewrite deferred_ArrowRight. cbv zeta.
    destruct (nearestValidPosition_between _ i a b _ Hsorted Ha Hb Hrange)
      as [-> _].
    reflexivity.
  - rewrite deferred_ArrowLeft. cbv zeta.
    destruct (nearestValidPosition_between _ i a b _ Hsorted Ha Hb Hrange)
      as [_ ->].
    reflexivity.
Qed.

(** X10: ArrowLeft pressed when, once the update has settled, no valid
    position is greater than the caret offset (the caret is on or after the
    last valid position) moves the caret to the first valid position,
    whatever lies in between. *)
Theorem arrowLeft_nothing_beyond (options : Options)
  (engine : Engine.t Callback) (event : Event.t)
  (dispatched updated : Target.t) :
  createTextMask options = Ok engine ->
  Event.target event = Some dispatched ->
  Event.type event = "keydown" ->
  Event.key event = "ArrowLeft" ->
  (forall v, In v (get_validPositions options) ->
     v <= Target.selectionStart updated) ->
  Engine.onKeyDown engine event updated
  = caretMove event (hd 0 (get_validPositions options)).
Proof.
  intros Hok Htarget Htype Hkey Hall.
  apply createTextMask_Ok in Hok.
  destruct Hok as (_ & _ & Hne & _ & ->).
  cbn [operations Engine.onKeyDown].
  rewrite (manage_target _ _ _ _ _ _ _ Htarget), Htype, Hkey.
  rewrite deferred_ArrowLeft. cbv zeta.
  rewrite (nearestValidPosition_left_nothing_beyond _ _ Hall).
  rewrite (index_first _ Hne). reflexivity.
Qed.

(** For a collapsed caret that the default action has moved one step to the
    left, and with a valid position beyond it, ArrowLeft follows the strict
    rule: the caret moves to the nearest valid position strictly less than
    the offset it had at dispatch, and to the first valid position when there
    is none. *)
Lemma arrowLeft_strict_for_a_moved_caret (options : Options)
  (engine : Engine.t Callback) (event : Event.t)
  (dispatched updated : Target.t) :
  createTextMask options = Ok engine ->
  StronglySorted Z.lt (get_validPositions options) ->
  Event.target event = Some dispatched ->
  Event.type event = "keydown" ->
  Event.key event = "ArrowLeft" ->
  Target.selectionStart updated = Target.selectionStart dispatched - 1 ->
  (exists v, In v (get_validPositions options)
             /\ Target.selectionStart updated < v) ->
  arrowLeftStrict (get_validPositions options)
    (Target.selectionStart dispatched)
    (Engine.onKeyDown engine event updated).
Proof.
  intros Hok Hsorted Htarget Htype Hkey Hmoved Hbeyond.
  apply createTextMask_Ok in Hok.
  destruct Hok as (_ & _ & Hne & _ & ->).
  cbn [operations Engine.onKeyDown].
  rewrite (manage_target _ _ _ _ _ _ _ Htarget), Htype, Hkey.
  rewrite deferred_ArrowLeft. cbv zeta.
  set (validPositions := get_validPositions options) in *.
  set (offset := Target.selectionStart dispatched) in *.
  split.
  - intros m (Hin & Hlt & Hmax).
    destruct (nearestValidPosition_left_nearest validPositions
                (Target.selectionStart updated) Hsorted Hbeyond)
      as (m' & Hcaret & Hin' & Hle' & Hmax').
    { exists m. split; [exact Hin|lia]. }
    assert (m' = m).
    { specialize (Hmax m' Hin' ltac:(lia)).
      specialize (Hmax' m Hin ltac:(lia)). lia. }
    subst m'. rewrite Hcaret. unfold movesCaretTo.
    apply in_or_app. right. now left.
  - intros Hall first Hfirst.
    rewrite (nearestValidPosition_left_fallback validPositions
               (Target.selectionStart updated)).
    + rewrite (index_first _ Hne).
      destruct validPositions as [|v rest]; [discriminate|].
      injection Hfirst as <-. unfold movesCaretTo.
      apply in_or_app. right. now left.
    + intros v Hv. specialize (Hall v Hv). lia.
Qed.

End PropertiesMore.

(** ** The further properties on concrete inputs *)

Section ConcreteMore.

Import Examples.

Let table : SpecUtils.MaskDefinitions := SpecUtils.defaultMaskDefinitions.

(** A digit as placeholder of the pattern [99]: the error names the slot
    [9]. *)
Lemma createTextMask_first_failure_witness :
  let options : Options.t SpecUtils.MaskDefinitions Callback :=
    {| Options.pattern := Some "99";
       Options.placeholder := Some "5";
       Options.maskDefinitions := None;
       Options.guide := None;
       Options.stripMask := None;
       Options.allowEmpty := None;
       Options.onChange := None;
       Options.onCompletePattern := None |} in
  createTextMask options = Throw (placeholderMatches "5" "9")
  /\ charMatchTest "5" (get_maskDefinitions options) = Some "9"%char.
Proof.
  intros options.
  assert (Hthrow : createTextMask options = Throw (placeholderMatches "5" "9"))
    by reflexivity.
  split; [exact Hthrow|].
  destruct (createTextMask_first_failure options _ Hthrow)
    as (_ & _ & _ & _ & Hmarker).
  apply Hmarker. reflexivity.
Defined.

Lemma format_stripped_applies_mask_witness :
  Engine.format (engine "99-99" true true) (Some "123")
  = SpecUtils.applyMask "123" "99-99" "_" true false table.
Proof.
  assert (Hok : createTextMask (options "99-99" true true)
                = Ok (engine "99-99" true true)) by reflexivity.
  exact (format_stripped_applies_mask (options "99-99" true true)
           (engine "99-99" true true) Hok eq_refl (Some "123")).
Defined.

Lemma format_after_normalize_witness :
  Engine.format (engine "99" true true)
    (Some (fst (Engine.normalize (engine "99" true true) "12" (Some "1"))))
  = "12".
Proof.
  assert (Hok : createTextMask (options "99" true true)
                = Ok (engine "99" true true)) by reflexivity.
  apply (format_after_normalize (options "99" true true)
           (engine "99" true true) "12" (Some "1") Hok).
  left. reflexivity.
Defined.

Lemma normalize_effects_shape_witness :
  snd (Engine.normalize (engine "99" true true) "12" (Some "1"))
  = [Call "onChange" "12"; SetTimeout "onCompletePattern" "12" 10].
Proof.
  assert (Hok : createTextMask (options "99" true true)
                = Ok (engine "99" true true)) by reflexivity.
  destruct (normalize_effects_shape (options "99" true true)
              (engine "99" true true) "12" (Some "1") Hok) as [Hshape _].
  destruct (Hshape "onCompletePattern" "12" 10) as (_ & _ & _ & Heffects).
  - right. left. reflexivity.
  - exact Heffects.
Defined.

(** A click on the valid position 2 of [(999)]. *)
Lemma click_caret_witness :
  let event := event "click" "" "(12_)" 2 2 in
  Engine.onClick (engine "(999)" true true) event (target "(12_)" 2 2)
  = [Persist; PreventDefault].
Proof.
  intros event.
  assert (Hok : createTextMask (options "(999)" true true)
                = Ok (engine "(999)" true true)) by reflexivity.
  destruct (click_caret (options "(999)" true true) (engine "(999)" true true)
              event (target "(12_)" 2 2) (target "(12_)" 2 2)
              Hok eq_refl eq_refl) as [Hvalid _].
  apply Hvalid; [reflexivity|]. right. left. reflexivity.
Defined.

(** The Tab key. *)
Lemma ignored_events_witness :
  let event := event "keydown" "Tab" "(12_)" 2 2 in
  Engine.onKeyDown (engine "(999)" true true) event (target "(12_)" 2 2)
  = [Persist].
Proof.
  intros event.
  assert (Hok : createTextMask (options "(999)" true true)
                = Ok (engine "(999)" true true)) by reflexivity.
  destruct (ignored_events (options "(999)" true true)
              (engine "(999)" true true)
              (Engine.onKeyDown (engine "(999)" true true))
              event (target "(12_)" 2 2) Hok (or_introl eq_refl))
    as [_ Hignored].
  apply Hignored; [discriminate|].
  right. split; [reflexivity|]. split; discriminate.
Defined.

Lemma handler_single_action_witness :
  let event := event "focus" "" "(12_)" 0 0 in
  let effects :=
    Engine.onFocus (engine "(999)" true true) event (target "(12_)" 0 0) in
  effects = []
  \/ exists action,
       effects = (persisted event ++ action)%list /\ singleAction action.
Proof.
  intros event effects.
  assert (Hok : createTextMask (options "(999)" true true)
                = Ok (engine "(999)" true true)) by reflexivity.
  apply (handler_single_action (options "(999)" true true)
           (engine "(999)" true true)
           (Engine.onFocus (engine "(999)" true true)) event
           (target "(12_)" 0 0) Hok).
  right. right. left. reflexivity.
Defined.

(** ArrowRight after the area code of a phone number: from 3, over the
    literals, to 6. *)
Lemma arrows_between_neighbours_witness :
  let event := event "keydown" "ArrowRight" "(555) ___-____" 3 3 in
  Engine.onKeyDown (engine "(999) 999-9999" true true) event
    (target "(555) ___-____" 4 4)
  = caretMove event 6.
Proof.
  intros event.
  assert (Hok : createTextMask (options "(999) 999-9999" true true)
                = Ok (engine "(999) 999-9999" true true)) by reflexivity.
  assert (Hsorted : StronglySorted Z.lt
                      (get_validPositions (options "(999) 999-9999" true true))).
  { repeat (constructor; try reflexivity). }
  destruct (arrows_between_neighbours (options "(999) 999-9999" true true)
              (engine "(999) 999-9999" true true) event
              (target "(555) ___-____" 3 3) (target "(555) ___-____" 4 4)
              2%nat 3 6 Hok Hsorted eq_refl eq_refl eq_refl eq_refl)
    as [Hright _].
  apply Hright; [reflexivity|]. split; [discriminate|reflexivity].
Defined.

(** ArrowLeft from the end of ["12-"] with the pattern [99-]. *)
Lemma arrowLeft_nothing_beyond_witness :
  let event := event "keydown" "ArrowLeft" "12-" 3 3 in
  Engine.onKeyDown (engine "99-" true true) event (target "12-" 2 2)
  = caretMove event 0.
Proof.
  intros event.
  assert (Hok : createTextMask (options "99-" true true)
                = Ok (engine "99-" true true)) by reflexivity.
  apply (arrowLeft_nothing_beyond (options "99-" true true)
           (engine "99-" true true) event (target "12-" 3 3)
           (target "12-" 2 2) Hok eq_refl eq_refl eq_refl).
  intros v [<-|[<-|[]]]; discriminate.
Defined.

End ConcreteMore.
